(** * create_package.py: packaging of the prebuilt MeCab dictionary

    A shallow embedding of [libexec/create_package.py] and the proofs of
    its specification.  The script is glue over the operating system, so
    the embedding has two layers:

    - a model of what the script calls ([os.path], [os], [shutil],
      [tempfile], [pathlib], [logging], [subprocess]) over an explicit
      world: a file-system tree with inodes, the log, and the record of
      the subprocesses that were started;
    - the script's own functions, written over that model in a state and
      exception monad, statement by statement.

    External programs ([tar], [fpm]) are not part of the script: they are
    a parameter [tool] of the development, and every theorem holds for
    every such tool. *)

From Stdlib Require Import ZArith Lia Ascii.
From stdpp Require Import gmap strings list fin_maps pretty.

Local Open Scope string_scope.
Local Open Scope list_scope.

(** ** Strings *)

(** The double quote character, used by the script's messages. *)
Definition dq : string := String (Ascii.ascii_of_nat 34) EmptyString.

Definition is_slash (c : ascii) : bool := Ascii.eqb c "/"%char.

(** Separators of [re.split(r'[\-_]', ...)]. *)
Definition is_tag_sep (c : ascii) : bool :=
  Ascii.eqb c "-"%char || Ascii.eqb c "_"%char.

(** Splitting at every character of a class: [n] separators give [n + 1]
    fields, empty fields included.  This is [str.split(sep)] for a
    one-character separator and [re.split] for a character class. *)
Fixpoint split_on (sep : ascii → bool) (s : string) : list string :=
  match s with
  | EmptyString => [EmptyString]
  | String c s' =>
      if sep c then EmptyString :: split_on sep s'
      else match split_on sep s' with
           | h :: t => String c h :: t
           | [] => [String c EmptyString]
           end
  end.

Fixpoint count_sep (sep : ascii → bool) (s : string) : nat :=
  match s with
  | EmptyString => 0%nat
  | String c s' => ((if sep c then 1 else 0) + count_sep sep s')%nat
  end.

Definition starts_with_slash (s : string) : bool :=
  match s with
  | String c _ => is_slash c
  | EmptyString => false
  end.

Fixpoint ends_with_slash (s : string) : bool :=
  match s with
  | EmptyString => false
  | String c EmptyString => is_slash c
  | String _ s' => ends_with_slash s'
  end.

(** [needle in hay] *)
Fixpoint contains (needle hay : string) : bool :=
  String.prefix needle hay ||
  match hay with
  | EmptyString => false
  | String _ hay' => contains needle hay'
  end.

Definition is_space (c : ascii) : bool :=
  let n := Ascii.nat_of_ascii c in
  (n =? 32)%nat || ((9 <=? n)%nat && (n <=? 13)%nat).

Fixpoint lstrip (s : string) : string :=
  match s with
  | String c s' => if is_space c then lstrip s' else s
  | EmptyString => EmptyString
  end.

Fixpoint rstrip (s : string) : string :=
  match s with
  | EmptyString => EmptyString
  | String c s' =>
      match rstrip s' with
      | EmptyString => if is_space c then EmptyString else String c EmptyString
      | r => String c r
      end
  end.

(** [bytes.strip()] *)
Definition strip (s : string) : string := rstrip (lstrip s).

(** ** Exceptions and results *)

Inductive exn : Type :=
  | MeCabPackageException (msg : string)
  | ValueError
  | FileNotFoundError
  | FileExistsError
  | NotADirectoryError
  | IsADirectoryError
  | PermissionError.

Inductive result (A : Type) : Type :=
  | Ok (a : A)
  | Err (e : exn).
Arguments Ok {A} a.
Arguments Err {A} e.

(** ** [os.path] on strings (posixpath) *)

Module path.

(** [os.path.join(a, b)] *)
Definition join (a b : string) : string :=
  if starts_with_slash b then b
  else if String.eqb a EmptyString || ends_with_slash a then a +:+ b
  else a +:+ "/" +:+ b.

(** [os.path.basename(p)]: what follows the last slash. *)
Definition basename (p : string) : string :=
  List.last (split_on is_slash p) EmptyString.

End path.

(** ** The version tag *)

(** [version, revision = re.split(r'[\-_]', version_tag)]: the unpacking
    raises [ValueError] unless the split has exactly two fields. *)
Definition version_revision_from_version_tag (version_tag : string)
  : result (string * string) :=
  match split_on is_tag_sep version_tag with
  | [version; revision] => Ok (version, revision)
  | _ => Err ValueError
  end.

(** ** The world *)

(** A location is the list of names from an entry up to the root: the
    root directory is [[]], its child [usr] is [["usr"]], and
    [/usr/share] is [["share"; "usr"]].  The parent is the tail and an
    entry lies below a directory when the directory's location is a
    suffix of its own. *)
Abbreviation loc := (list string).

(** A directory entry: a directory, or a name for an inode.  Two names
    for the same inode are hard links of each other. *)
Inductive node : Type :=
  | Dir
  | File (ino : nat).

Global Instance node_eq_dec : EqDecision node.
Proof. solve_decision. Defined.

Record filesystem : Type := FS {
  tree : gmap loc node;
  data : gmap nat string;      (* the bytes of every inode *)
  next_ino : nat               (* the next inode number to hand out *)
}.

Inductive level : Type := DEBUG | INFO.

Inductive payload : Type :=
  | PStr (s : string)
  | PBytes (b : string)
  | PList (l : list string).

(** A started subprocess: its argument vector, the [cwd=] it was given
    and the file system as it was when it started. *)
Record invocation : Type := Invocation {
  inv_cmd : list string;
  inv_cwd : option string;
  inv_fs : filesystem
}.

(** What an external program does: the successive results of
    [stdout.readline()] while it runs, its return code ([Popen.poll()],
    negative when it was killed by a signal) and the file system it
    leaves behind. *)
Record process : Type := Process {
  p_reads : list string;
  p_rc : Z;
  p_fs : filesystem
}.

Record world : Type := World {
  w_fs : filesystem;
  w_cwd : loc;                 (* the working directory of the script *)
  w_tmpdir : string;           (* [tempfile.gettempdir()] *)
  w_names : list string;       (* the names [tempfile] will draw, in order *)
  w_log : list (level * payload);     (* most recent first *)
  w_procs : list invocation    (* most recent first *)
}.

Definition set_fs (f : filesystem) (w : world) : world :=
  World f (w_cwd w) (w_tmpdir w) (w_names w) (w_log w) (w_procs w).

Definition set_tree (t : gmap loc node) (w : world) : world :=
  set_fs (FS t (data (w_fs w)) (next_ino (w_fs w))) w.

Definition set_names (l : list string) (w : world) : world :=
  World (w_fs w) (w_cwd w) (w_tmpdir w) l (w_log w) (w_procs w).

Definition add_log (r : level * payload) (w : world) : world :=
  World (w_fs w) (w_cwd w) (w_tmpdir w) (w_names w) (r :: w_log w) (w_procs w).

Definition set_log (l : list (level * payload)) (w : world) : world :=
  World (w_fs w) (w_cwd w) (w_tmpdir w) (w_names w) l (w_procs w).

Definition add_proc (i : invocation) (w : world) : world :=
  World (w_fs w) (w_cwd w) (w_tmpdir w) (w_names w) (w_log w) (i :: w_procs w).

(** ** The monad: state, and exceptions that keep the state *)

Definition M (A : Type) : Type := world → result A * world.

Definition ret {A} (a : A) : M A := λ w, (Ok a, w).

Definition raise {A} (e : exn) : M A := λ w, (Err e, w).

Definition bind {A B} (m : M A) (k : A → M B) : M B :=
  λ w, match m w with
       | (Ok a, w') => k a w'
       | (Err e, w') => (Err e, w')
       end.

Declare Scope py_scope.
Delimit Scope py_scope with py.
Notation "'let*' x := m 'in' k" := (bind m (λ x, k))
  (at level 10, x name, m at level 200, k at level 200) : py_scope.
Notation "m ;;; k" := (bind m (λ _, k))
  (at level 100, k at level 200, right associativity) : py_scope.
Local Open Scope py_scope.

(** [for x in l: body(x)] *)
Fixpoint for_ {A} (l : list A) (body : A → M unit) : M unit :=
  match l with
  | [] => ret tt
  | x :: l' => body x ;;; for_ l' body
  end.

(** ** Path resolution *)

Definition components (p : string) : list string := split_on is_slash p.

(** One component of a path, from the location [l]. *)
Definition step (l : loc) (c : string) : loc :=
  if decide (c = EmptyString ∨ c = ".") then l
  else if decide (c = "..") then tail l
  else c :: l.

(** Every component is looked up in a directory: the location reached
    so far must be one. *)
Fixpoint walk (t : gmap loc node) (l : loc) (cs : list string) : result loc :=
  match cs with
  | [] => Ok l
  | c :: cs' =>
      match t !! l with
      | Some Dir => walk t (step l c) cs'
      | Some (File _) => Err NotADirectoryError
      | None => Err FileNotFoundError
      end
  end.

Definition start (cwd : loc) (p : string) : loc :=
  if starts_with_slash p then [] else cwd.

(** The location a path names; its last component need not exist. *)
Definition resolve (t : gmap loc node) (cwd : loc) (p : string) : result loc :=
  if String.eqb p EmptyString then Err FileNotFoundError
  else walk t (start cwd p) (components p).

(** The same without the directory checks. *)
Definition canon (cwd : loc) (p : string) : loc :=
  fold_left step (components p) (start cwd p).

(** Trailing slashes are allowed on the name of a directory to create. *)
Fixpoint drop_trailing_empty (cs : list string) : list string :=
  match cs with
  | [] => []
  | c :: cs' =>
      match drop_trailing_empty cs' with
      | [] => if decide (c = EmptyString) then [] else [c]
      | r => c :: r
      end
  end.

Definition resolve_dir (t : gmap loc node) (cwd : loc) (p : string) : result loc :=
  if String.eqb p EmptyString then Err FileNotFoundError
  else walk t (start cwd p) (drop_trailing_empty (components p)).

Definition lookup_path (w : world) (p : string) : option node :=
  match resolve (tree (w_fs w)) (w_cwd w) p with
  | Ok q => tree (w_fs w) !! q
  | Err _ => None
  end.

(** The inode a path names, when it names a regular file. *)
Definition ino_at (w : world) (p : string) : option nat :=
  match lookup_path w p with
  | Some (File i) => Some i
  | _ => None
  end.

Definition isfile (w : world) (p : string) : bool :=
  match lookup_path w p with
  | Some (File _) => true
  | _ => false
  end.

Definition isdir (w : world) (p : string) : bool :=
  match lookup_path w p with
  | Some Dir => true
  | _ => false
  end.

(** The names in the directory at [q]. *)
Definition children (t : gmap loc node) (q : loc) : list string :=
  omap (λ kv : loc * node,
          match kv.1 with
          | c :: p => if decide (p = q) then Some c else None
          | [] => None
          end) (map_to_list t).

(** A new entry needs a name and a parent directory. *)
Definition creatable (t : gmap loc node) (q : loc) : bool :=
  match q with
  | [] => false
  | _ :: p => bool_decide (t !! p = Some Dir)
  end.

(** ** [os], [shutil], [tempfile], [pathlib], [logging] *)

Module os.

(** [os.path.isfile(p)]: never raises. *)
Definition path_isfile (p : string) : M bool := λ w, (Ok (isfile w p), w).

(** [os.listdir(p)] *)
Definition listdir (p : string) : M (list string) := λ w,
  let t := tree (w_fs w) in
  match resolve t (w_cwd w) p with
  | Err e => (Err e, w)
  | Ok q =>
      match t !! q with
      | Some Dir => (Ok (children t q), w)
      | Some (File _) => (Err NotADirectoryError, w)
      | None => (Err FileNotFoundError, w)
      end
  end.

(** [os.mkdir(p)] *)
Definition mkdir (p : string) : M unit := λ w,
  let t := tree (w_fs w) in
  match resolve_dir t (w_cwd w) p with
  | Err e => (Err e, w)
  | Ok q =>
      match t !! q with
      | Some _ => (Err FileExistsError, w)
      | None =>
          if creatable t q then (Ok tt, set_tree (<[q := Dir]> t) w)
          else (Err FileNotFoundError, w)
      end
  end.

(** [os.link(src, dst)]: a second name for the inode of [src]. *)
Definition link (src dst : string) : M unit := λ w,
  let t := tree (w_fs w) in
  match resolve t (w_cwd w) src with
  | Err e => (Err e, w)
  | Ok qs =>
      match t !! qs with
      | None => (Err FileNotFoundError, w)
      | Some n =>
          match resolve t (w_cwd w) dst with
          | Err e => (Err e, w)
          | Ok qd =>
              match t !! qd with
              | Some _ => (Err FileExistsError, w)
              | None =>
                  if creatable t qd then
                    match n with
                    | Dir => (Err PermissionError, w)
                    | File i => (Ok tt, set_tree (<[qd := File i]> t) w)
                    end
                  else (Err FileNotFoundError, w)
              end
          end
      end
  end.

End os.

(** [with open(p, 'w') as f: f.write(content)]: an existing file is
    truncated in place, a missing one gets a new inode. *)
Definition write_file (p content : string) : M unit := λ w,
  let f := w_fs w in
  match resolve (tree f) (w_cwd w) p with
  | Err e => (Err e, w)
  | Ok q =>
      match tree f !! q with
      | Some Dir => (Err IsADirectoryError, w)
      | Some (File i) =>
          (Ok tt, set_fs (FS (tree f) (<[i := content]> (data f)) (next_ino f)) w)
      | None =>
          if creatable (tree f) q then
            (Ok tt, set_fs (FS (<[q := File (next_ino f)]> (tree f))
                               (<[next_ino f := content]> (data f))
                               (S (next_ino f))) w)
          else (Err FileNotFoundError, w)
      end
  end.

Module shutil.

(** [shutil.rmtree(p)]: the directory at [p] and everything below. *)
Definition rmtree (p : string) : M unit := λ w,
  let t := tree (w_fs w) in
  match resolve t (w_cwd w) p with
  | Err e => (Err e, w)
  | Ok q =>
      match t !! q with
      | Some Dir =>
          (Ok tt, set_tree (filter (λ kv : loc * node, ¬ q `suffix_of` kv.1) t) w)
      | Some (File _) => (Err NotADirectoryError, w)
      | None => (Err FileNotFoundError, w)
      end
  end.

End shutil.

Module tempfile.

(** [tempfile.mkdtemp()]: the first drawn name that is free; a name
    that exists is skipped, and [FileExistsError] is raised when no
    name is left. *)
Fixpoint mkdtemp_from (names : list string) : M string :=
  match names with
  | [] => λ w, (Err FileExistsError, set_names [] w)
  | name :: rest => λ w,
      let file := path.join (w_tmpdir w) ("tmp" +:+ name) in
      match os.mkdir file (set_names rest w) with
      | (Ok _, w') => (Ok file, w')
      | (Err FileExistsError, w') => mkdtemp_from rest w'
      | (Err e, w') => (Err e, w')
      end
  end.

Definition mkdtemp : M string := λ w, mkdtemp_from (w_names w) w.

End tempfile.

Module pathlib.

(** [Path(p).parts] without the anchor: empty and [.] components are
    dropped when a [Path] is built. *)
Definition parts (p : string) : list string :=
  filter (λ c, ¬ (c = EmptyString ∨ c = ".")) (components p).

(** [str(path)], from the anchor and the parts, last part first. *)
Fixpoint to_str (absolute : bool) (rparts : list string) : string :=
  match rparts with
  | [] => if absolute then "/" else "."
  | [c] => if absolute then "/" +:+ c else c
  | c :: rest => to_str absolute rest +:+ "/" +:+ c
  end.

(** [path.mkdir(parents=False, exist_ok=True)] *)
Definition mkdir_exist_ok (p : string) : M unit := λ w,
  match os.mkdir p w with
  | (Err FileNotFoundError, w') => (Err FileNotFoundError, w')
  | (Err e, w') => if isdir w' p then (Ok tt, w') else (Err e, w')
  | r => r
  end.

(** [path.mkdir(parents=True, exist_ok=True)]: the directory is tried
    first; when a parent is missing the parent is made the same way
    and the directory is tried again. *)
Fixpoint mkdir_parents (absolute : bool) (rparts : list string) : M unit :=
  λ w,
    let self := to_str absolute rparts in
    match os.mkdir self w with
    | (Err FileNotFoundError, w') =>
        match rparts with
        | [] => (Err FileNotFoundError, w')
        | _ :: parent =>
            (mkdir_parents absolute parent ;;; mkdir_exist_ok self) w'
        end
    | (Err e, w') => if isdir w' self then (Ok tt, w') else (Err e, w')
    | r => r
    end.

(** [pathlib.Path(p).mkdir(parents=True, exist_ok=True)] *)
Definition mkdir_p (p : string) : M unit :=
  mkdir_parents (starts_with_slash p) (rev (parts p)).

End pathlib.

Module logging.
Definition debug (m : payload) : M unit := λ w, (Ok tt, add_log (DEBUG, m) w).
Definition info (m : payload) : M unit := λ w, (Ok tt, add_log (INFO, m) w).
End logging.

(** ** Vocabulary of the specification *)

Definition no_slash (s : string) : bool := (count_sep is_slash s =? 0)%nat.

(** A name an entry can have in a directory. *)
Definition plain (c : string) : bool :=
  no_slash c && negb (String.eqb c EmptyString)
  && negb (String.eqb c ".") && negb (String.eqb c "..").

(** The tree is a tree: the root is a directory, every other entry has
    a proper name and lies in a directory. *)
Definition wf_tree (t : gmap loc node) : Prop :=
  t !! [] = Some Dir ∧
  ∀ c p n, t !! (c :: p) = Some n → plain c = true ∧ t !! p = Some Dir.

Definition wf_entry (t : gmap loc node) (next : nat) (kv : loc * node) : bool :=
  match kv.1 with
  | [] => true
  | c :: p => plain c && bool_decide (t !! p = Some Dir)
  end &&
  match kv.2 with
  | File i => (i <? next)%nat
  | Dir => true
  end.

(** The same, with every inode in use below [next_ino]; as a test. *)
Definition wf (f : filesystem) : bool :=
  bool_decide (tree f !! [] = Some Dir)
  && forallb (wf_entry (tree f) (next_ino f)) (map_to_list (tree f)).

Definition ino_bounded (f : filesystem) : Prop :=
  ∀ q i, tree f !! q = Some (File i) → (i < next_ino f)%nat.

(** A world the script can start in: the tree is a tree, the inodes in
    use are below [next_ino] and the working directory exists. *)
Record good (w : world) : Prop := Good {
  good_tree : wf_tree (tree (w_fs w));
  good_ino : ino_bounded (w_fs w);
  good_cwd : tree (w_fs w) !! w_cwd w = Some Dir
}.

(** The same as a test. *)
Definition wf_world (w : world) : bool :=
  wf (w_fs w) && bool_decide (tree (w_fs w) !! w_cwd w = Some Dir).

(** What the script itself may do to the world between two points: add
    entries and inodes, write the log, draw names.  Nothing that was
    there is changed and no subprocess is started. *)
Record grows (w w' : world) : Prop := Grows {
  grows_tree : tree (w_fs w) ⊆ tree (w_fs w');
  grows_data : ∀ i, (i < next_ino (w_fs w))%nat →
                    data (w_fs w') !! i = data (w_fs w) !! i;
  grows_ino : (next_ino (w_fs w) ≤ next_ino (w_fs w'))%nat;
  grows_cwd : w_cwd w' = w_cwd w;
  grows_tmpdir : w_tmpdir w' = w_tmpdir w;
  grows_procs : w_procs w' = w_procs w
}.

(** Every entry of [w'] was in [w] already, or is a new one that
    satisfies [P]. *)
Definition adds (P : loc → node → Prop) (w w' : world) : Prop :=
  ∀ q n, tree (w_fs w') !! q = Some n → tree (w_fs w) !! q = Some n ∨ P q n.

(** The world as a subprocess saw it. *)
Definition seen_by (i : invocation) (w : world) : world := set_fs (inv_fs i) w.

(** [rmtree] at location [s]: the entries that remain. *)
Definition without_subtree (s : loc) (t : gmap loc node) : gmap loc node :=
  filter (λ kv : loc * node, ¬ s `suffix_of` kv.1) t.

(** ** A sample world *)

Definition nl : string := String (Ascii.ascii_of_nat 10) EmptyString.

Definition sample_tree : gmap loc node :=
  list_to_map
    [ ([], Dir);
      (["tmp"], Dir);
      (["repo"], Dir);
      (["libexec"; "repo"], Dir);
      (["README.md"; "repo"], File 1);
      (["README.ja.md"; "repo"], File 2);
      (["ChangeLog"; "repo"], File 3);
      (["COPYING"; "repo"], File 4);
      (["in"], Dir);
      (["sys.dic"; "in"], File 5);
      (["matrix.bin"; "in"], File 6);
      (["sub"; "in"], Dir) ].

Definition sample_fs : filesystem :=
  FS sample_tree
     (list_to_map
        [ (1%nat, "readme"); (2%nat, "readme.ja"); (3%nat, "changes");
          (4%nat, "license"); (5%nat, "sys"); (6%nat, "matrix") ])
     7.

Definition sample_world : world :=
  World sample_fs [] "/tmp" ["abc"; "def"] [] [].

Definition sample_script_dir : string := "/repo/libexec".

(** The sample world without two of the misc docs: [README.md] and
    [ChangeLog] are there, [README.ja.md] and [COPYING] are not. *)
Definition docless_world : world :=
  set_tree (delete ["COPYING"; "repo"]
              (delete ["README.ja.md"; "repo"] sample_tree)) sample_world.

(** An empty disk: only the root. *)
Definition bare_world : world :=
  World (FS {[ [] := Dir ]} ∅ 0) [] "/tmp" ["abc"] [] [].

(** The file system after a program has written [p]. *)
Definition touch (p : string) (f : filesystem) : filesystem :=
  w_fs (write_file p "archive" (World f [] EmptyString [] [] [])).2.

Fixpoint arg_after (flag : string) (cmd : list string) : option string :=
  match cmd with
  | a :: rest => if String.eqb a flag then head rest else arg_after flag rest
  | [] => None
  end.

(** A packager that writes its output file and reports success. *)
Definition packager (cmd : list string) (cwd : option string) (f : filesystem)
  : option process :=
  match cmd with
  | "tar" :: _ :: out :: _ =>
      Some (Process ["a" +:+ nl; EmptyString; "b" +:+ nl] 0 (touch out f))
  | "fpm" :: _ =>
      match arg_after "--package" cmd with
      | Some out => Some (Process ["ok" +:+ nl] 0 (touch out f))
      | None => Some (Process [] 1 f)
      end
  | _ => None
  end.

(** A packager that reports success and writes nothing. *)
Definition idle_packager (cmd : list string) (cwd : option string)
  (f : filesystem) : option process :=
  Some (Process [] 0 f).

(** A program that is killed by signal 9. *)
Definition killed (cmd : list string) (cwd : option string) (f : filesystem)
  : option process :=
  Some (Process ["Killed" +:+ nl] (-9) f).


(** ** The script *)

Definition MECAB_IPADIC_NEOLOGD_NAME : string := "mecab-ipadic-neologd".
Definition MECAB_IPADIC_NEOLOGD_SUMMARY : string :=
  "Neologism dictionary based on the language resources on the Web for mecab-ipadic".
Definition MECAB_IPADIC_NEOLOGD_LICENSE : string := "Apache-2.0".
Definition MECAB_IPADIC_NEOLOGD_VENDOR : string :=
  "Toshinori Sato (@overlast) <overlasting@gmail.com>".
Definition MECAB_IPADIC_NEOLOGD_MAINTAINER : string :=
  "Linas Valiukas <linas@mediacloud.org>".
Definition MECAB_IPADIC_NEOLOGD_URL : string :=
  "https://github.com/mediacloud/mecab-ipadic-neologd-prebuilt".
Definition MECAB_IPADIC_NEOLOGD_GIT_URL : string :=
  MECAB_IPADIC_NEOLOGD_URL +:+ ".git".
Definition MECAB_IPADIC_NEOLOGD_DEPENDS_MECAB_VERSION : string := "0.996".
Definition MECAB_IPADIC_NEOLOGD_CHANGELOG_FILE : string := "ChangeLog".
Definition MECAB_IPADIC_NEOLOGD_TAGS : list string :=
  [ "mecab-ipadic"; "named-entities"; "dictionary"; "furigana";
    "neologism-dictionary"; "mecab"; "language-resources";
    "japanese-language" ].

Section Script.

(** The external programs: what a command does when it is started
    with a [cwd=] on a file system, or [None] when it cannot be
    started. *)
Variable tool : list string → option string → filesystem → option process.

(** [os.path.dirname(os.path.realpath(__file__))] *)
Variable script_dir : string.

Definition PATH_TO_ROOT : string := path.join script_dir "..".

Definition MECAB_IPADIC_NEOLOGD_MISC_DOCS : list string :=
  [ path.join PATH_TO_ROOT "README.md";
    path.join PATH_TO_ROOT "README.ja.md";
    path.join PATH_TO_ROOT MECAB_IPADIC_NEOLOGD_CHANGELOG_FILE;
    path.join PATH_TO_ROOT "COPYING" ].

(** The [while True] loop of [__run_command]: a line is logged and
    the loop goes on; so is an empty read while the process is still
    running.  The loop ends at the empty read that finds the process
    gone, which is the end of [reads]. *)
Fixpoint read_loop (reads : list string) : M unit :=
  match reads with
  | [] => ret tt
  | output :: rest => logging.info (PBytes (strip output)) ;;; read_loop rest
  end.

Definition __run_command (command : list string) (cwd : option string)
  : M unit := λ w,
  match tool command cwd (w_fs w) with
  | None => (Err FileNotFoundError, w)
  | Some process =>
      let w1 := set_fs (p_fs process)
                  (add_proc (Invocation command cwd (w_fs w)) w) in
      (read_loop (p_reads process) ;;;
       let rc := p_rc process in
       if (rc >? 0)%Z then
         raise (MeCabPackageException
                  ("Process returned non-zero exit code " +:+ pretty rc))
       else ret tt) w1
  end.

Definition __temp_directory : M string := tempfile.mkdtemp.

Definition __mkdir_p (p : string) : M unit := pathlib.mkdir_p p.

Definition create_tgz_package (input_dir version revision : string)
  : M string :=
  let* temp_dir := __temp_directory in
  let mecab_dirname :=
    MECAB_IPADIC_NEOLOGD_NAME +:+ "-" +:+ version +:+ "-" +:+ revision in
  let temp_mecab_dir_path := path.join temp_dir mecab_dirname in
  os.mkdir temp_mecab_dir_path ;;;
  logging.debug
    (PStr ("Temporary MeCab tarball directory: " +:+ temp_mecab_dir_path)) ;;;

  logging.info (PStr "Linking MeCab files to tarball directory...") ;;;
  let* filenames := os.listdir input_dir in
  for_ filenames (λ filename,
    let full_filename := path.join input_dir filename in
    let* is_file := os.path_isfile full_filename in
    if is_file then
      os.link full_filename (path.join temp_mecab_dir_path filename)
    else ret tt) ;;;

  logging.info (PStr "Linking documentation files to tarball directory...") ;;;
  for_ MECAB_IPADIC_NEOLOGD_MISC_DOCS (λ doc_file_path,
    os.link doc_file_path
      (path.join temp_mecab_dir_path (path.basename doc_file_path))) ;;;

  let tarball_filename := mecab_dirname +:+ ".tgz" in
  logging.info (PStr ("Creating " +:+ dq +:+ tarball_filename +:+ dq +:+ "...")) ;;;
  let temp_mecab_tarball_path := path.join temp_dir tarball_filename in
  __run_command ["tar"; "-czvf"; temp_mecab_tarball_path; mecab_dirname]
    (Some temp_dir) ;;;

  logging.info (PStr "Cleaning up temporary directory...") ;;;
  shutil.rmtree temp_mecab_dir_path ;;;

  logging.info (PStr ("Resulting tarball: " +:+ temp_mecab_tarball_path)) ;;;
  ret temp_mecab_tarball_path.

Definition __fpm_common_flags (version revision : string) : list string :=
  [ "--verbose";
    "--input-type"; "dir";
    "--name"; MECAB_IPADIC_NEOLOGD_NAME;
    "--version"; version;
    "--iteration"; revision;
    "--description"; MECAB_IPADIC_NEOLOGD_SUMMARY;
    "--license"; MECAB_IPADIC_NEOLOGD_LICENSE;
    "--vendor"; MECAB_IPADIC_NEOLOGD_VENDOR;
    "--maintainer"; MECAB_IPADIC_NEOLOGD_MAINTAINER;
    "--url"; MECAB_IPADIC_NEOLOGD_URL;
    "--architecture"; "all";
    "--prefix"; "/" ].

Definition create_deb_package (input_dir version revision : string)
  : M string :=
  let* temp_dir := __temp_directory in
  let deb_source_dir := path.join temp_dir "deb" in
  os.mkdir deb_source_dir ;;;

  let deb_base_lib_dir := "var/lib/mecab/dic/ipadic-neologd" in
  let deb_base_doc_dir := "usr/share/doc/mecab-ipadic-neologd" in

  let lib_dir := path.join deb_source_dir deb_base_lib_dir in
  __mkdir_p lib_dir ;;;

  let doc_dir := path.join deb_source_dir deb_base_doc_dir in
  __mkdir_p doc_dir ;;;

  logging.info (PStr "Linking MeCab files to library directory...") ;;;
  let* filenames := os.listdir input_dir in
  for_ filenames (λ filename,
    let full_filename := path.join input_dir filename in
    let* is_file := os.path_isfile full_filename in
    if is_file then
      os.link full_filename (path.join lib_dir filename)
    else ret tt) ;;;

  logging.info
    (PStr "Linking documentation files to documentation directory...") ;;;
  for_ MECAB_IPADIC_NEOLOGD_MISC_DOCS (λ doc_file_path,
    os.link doc_file_path
      (path.join doc_dir (path.basename doc_file_path))) ;;;

  let deb_name :=
    MECAB_IPADIC_NEOLOGD_NAME +:+ "_" +:+ version +:+ "-" +:+ revision
      +:+ "_all.deb" in
  let deb_path := path.join temp_dir deb_name in

  let after_install_path := path.join temp_dir "after-install" in
  write_file after_install_path
    ("update-alternatives --install /var/lib/mecab/dic/debian mecab-dictionary /"
       +:+ deb_base_lib_dir +:+ " 100") ;;;

  let after_remove_path := path.join temp_dir "after-remove" in
  write_file after_remove_path
    ("update-alternatives --remove mecab-dictionary /" +:+ deb_base_lib_dir) ;;;

  logging.info (PStr ("Creating " +:+ deb_name +:+ "...")) ;;;
  let fpm_command :=
    (["fpm"] ++ __fpm_common_flags version revision ++
    [ "--output-type"; "deb";
      "--package"; deb_path;
      "--chdir"; deb_source_dir;
      "--depends";
        "mecab (>= " +:+ MECAB_IPADIC_NEOLOGD_DEPENDS_MECAB_VERSION +:+ ")";
      "--category"; "misc";
      "--deb-priority"; "extra";
      "--deb-no-default-config-files";
      "--after-install"; after_install_path;
      "--after-remove"; after_remove_path ])%list in
  logging.debug (PList fpm_command) ;;;
  __run_command fpm_command None ;;;

  logging.info (PStr "Cleaning up temporary directory...") ;;;
  shutil.rmtree deb_source_dir ;;;

  logging.info (PStr ("Resulting .deb: " +:+ deb_path)) ;;;
  ret deb_path.

Definition create_rpm_package (input_dir version revision : string)
  : M string :=
  let* temp_dir := __temp_directory in
  let rpm_source_dir := path.join temp_dir "rpm" in
  os.mkdir rpm_source_dir ;;;

  let lib_dir := path.join rpm_source_dir "usr/lib64/mecab/dic/ipadic-neologd" in
  __mkdir_p lib_dir ;;;

  let doc_dir :=
    path.join rpm_source_dir
      ("usr/share/doc/" +:+ MECAB_IPADIC_NEOLOGD_NAME +:+ "-" +:+ version) in
  __mkdir_p doc_dir ;;;

  logging.info (PStr "Linking MeCab files to library directory...") ;;;
  let* filenames := os.listdir input_dir in
  for_ filenames (λ filename,
    let full_filename := path.join input_dir filename in
    let* is_file := os.path_isfile full_filename in
    if is_file then
      os.link full_filename (path.join lib_dir filename)
    else ret tt) ;;;

  logging.info
    (PStr "Linking documentation files to documentation directory...") ;;;
  for_ MECAB_IPADIC_NEOLOGD_MISC_DOCS (λ doc_file_path,
    os.link doc_file_path
      (path.join doc_dir (path.basename doc_file_path))) ;;;

  let rpm_name :=
    MECAB_IPADIC_NEOLOGD_NAME +:+ "_" +:+ version +:+ "-" +:+ revision
      +:+ "_all.rpm" in
  let rpm_path := path.join temp_dir rpm_name in

  logging.info (PStr ("Creating " +:+ rpm_name +:+ "...")) ;;;
  let fpm_command :=
    (["fpm"] ++ __fpm_common_flags version revision ++
    [ "--output-type"; "rpm";
      "--package"; rpm_path;
      "--chdir"; rpm_source_dir;
      "--depends";
        "mecab >= " +:+ MECAB_IPADIC_NEOLOGD_DEPENDS_MECAB_VERSION;
      "--category"; "Applications/Text";
      "--rpm-os"; "linux" ])%list in
  logging.debug (PList fpm_command) ;;;
  __run_command fpm_command None ;;;

  logging.info (PStr "Cleaning up temporary directory...") ;;;
  shutil.rmtree rpm_source_dir ;;;

  logging.info (PStr ("Resulting .rpm: " +:+ rpm_path)) ;;;
  ret rpm_path.

(** [__version_revision_from_version_tag] is
    [version_revision_from_version_tag] above. *)

Definition create_package (package_type input_dir version revision : string)
  : M string :=
  let* has_dictionary := os.path_isfile (path.join input_dir "sys.dic") in
  (if negb has_dictionary then
     raise (MeCabPackageException
              ("Input directory " +:+ dq +:+ input_dir +:+ dq
                 +:+ " does not contain build MeCab dictionary."))
   else ret tt) ;;;
  for_ MECAB_IPADIC_NEOLOGD_MISC_DOCS (λ misc_doc_file,
    let* is_file := os.path_isfile misc_doc_file in
    if negb is_file then
      raise (MeCabPackageException
               ("Misc. documentation file " +:+ dq +:+ misc_doc_file +:+ dq
                  +:+ " does not exist."))
    else ret tt) ;;;

  let* package_path :=
    (if String.eqb package_type "tgz" then
       create_tgz_package input_dir version revision
     else if String.eqb package_type "deb" then
       create_deb_package input_dir version revision
     else if String.eqb package_type "rpm" then
       create_rpm_package input_dir version revision
     else
       raise (MeCabPackageException
                ("Unknown package type " +:+ dq +:+ package_type +:+ dq
                   +:+ "."))) in

  let* exists_package := os.path_isfile package_path in
  (* the exception is built and dropped: there is no [raise] *)
  let _ :=
    if negb exists_package then
      Some (MeCabPackageException
              ("Created package " +:+ dq +:+ package_path +:+ dq
                 +:+ " does not exist."))
    else None in

  ret package_path.



(** ** Vocabulary that mentions the script *)

(** Both checks of [create_package] pass. *)
Definition validated (w : world) (input_dir : string) : bool :=
  isfile w (path.join input_dir "sys.dic")
  && forallb (isfile w) MECAB_IPADIC_NEOLOGD_MISC_DOCS.

Definition no_dictionary_message (input_dir : string) : string :=
  "Input directory " +:+ dq +:+ input_dir +:+ dq
    +:+ " does not contain build MeCab dictionary.".

Definition missing_doc_message (misc_doc_file : string) : string :=
  "Misc. documentation file " +:+ dq +:+ misc_doc_file +:+ dq
    +:+ " does not exist.".

Definition unknown_type_message (package_type : string) : string :=
  "Unknown package type " +:+ dq +:+ package_type +:+ dq +:+ ".".

Definition exit_code_message (rc : Z) : string :=
  "Process returned non-zero exit code " +:+ pretty rc.

(** What [__run_command] logs for the output of a process. *)
Definition output_log (reads : list string) : list (level * payload) :=
  rev (map (λ output, (INFO, PBytes (strip output))) reads).

(** What a builder has done when it returns: [temp_dir] is the fresh
    temporary directory, [staging] the directory that is staged and then
    removed, [files_dir] and [docs_dir] the directories the dictionary
    files and the docs are linked into, [cmd] the packaging command,
    [before] the world when the command was started, [pr] what the
    command did, and [w'] the world at the return. *)
Record built (w : world) (input_dir temp_dir staging files_dir docs_dir : string)
    (cmd : list string) (cmd_cwd : option string)
    (before : world) (pr : process) (w' : world) : Prop := Built {
  built_temp_fresh : tree (w_fs w) !! canon (w_cwd w) temp_dir = None;
  built_temp_nonempty : temp_dir ≠ EmptyString;
  built_staging_fresh : tree (w_fs w) !! canon (w_cwd w) staging = None;
  built_staging_dir : isdir before staging = true;
  built_grows : grows w before;
  built_good : good before;
  built_files :
    ∀ names f i,
      os.listdir input_dir w = (Ok names, w) → f ∈ names →
      ino_at w (path.join input_dir f) = Some i →
      ino_at before (path.join files_dir f) = Some i;
  built_docs :
    ∀ d, d ∈ MECAB_IPADIC_NEOLOGD_MISC_DOCS →
         ∃ i, ino_at before d = Some i ∧
              ino_at before (path.join docs_dir (path.basename d)) = Some i;
  built_tool : tool cmd cmd_cwd (w_fs before) = Some pr;
  built_rc : (p_rc pr ≤ 0)%Z;
  built_procs :
    w_procs w' = Invocation cmd cmd_cwd (w_fs before) :: w_procs w;
  built_cwd : w_cwd w' = w_cwd w;
  built_rm_resolve :
    resolve (tree (p_fs pr)) (w_cwd w) staging = Ok (canon (w_cwd w) staging);
  built_rm_dir : tree (p_fs pr) !! canon (w_cwd w) staging = Some Dir;
  built_tree :
    tree (w_fs w') = without_subtree (canon (w_cwd w) staging) (tree (p_fs pr));
  built_data : data (w_fs w') = data (p_fs pr);
  built_next : next_ino (w_fs w') = next_ino (p_fs pr)
}.

(** The names of the three artifacts. *)
Definition tgz_dirname (version revision : string) : string :=
  MECAB_IPADIC_NEOLOGD_NAME +:+ "-" +:+ version +:+ "-" +:+ revision.

Definition tgz_name (version revision : string) : string :=
  tgz_dirname version revision +:+ ".tgz".

Definition deb_name (version revision : string) : string :=
  MECAB_IPADIC_NEOLOGD_NAME +:+ "_" +:+ version +:+ "-" +:+ revision
    +:+ "_all.deb".

Definition rpm_name (version revision : string) : string :=
  MECAB_IPADIC_NEOLOGD_NAME +:+ "_" +:+ version +:+ "-" +:+ revision
    +:+ "_all.rpm".

Definition tar_command (temp_dir version revision : string) : list string :=
  [ "tar"; "-czvf"; path.join temp_dir (tgz_name version revision);
    tgz_dirname version revision ].

Definition deb_fpm_command (temp_dir version revision : string) : list string :=
  (["fpm"] ++ __fpm_common_flags version revision ++
   [ "--output-type"; "deb";
     "--package"; path.join temp_dir (deb_name version revision);
     "--chdir"; path.join temp_dir "deb";
     "--depends"; "mecab (>= 0.996)";
     "--category"; "misc";
     "--deb-priority"; "extra";
     "--deb-no-default-config-files";
     "--after-install"; path.join temp_dir "after-install";
     "--after-remove"; path.join temp_dir "after-remove" ])%list.

Definition rpm_fpm_command (temp_dir version revision : string) : list string :=
  (["fpm"] ++ __fpm_common_flags version revision ++
   [ "--output-type"; "rpm";
     "--package"; path.join temp_dir (rpm_name version revision);
     "--chdir"; path.join temp_dir "rpm";
     "--depends"; "mecab >= 0.996";
     "--category"; "Applications/Text";
     "--rpm-os"; "linux" ])%list.

Definition deb_lib_dir (temp_dir : string) : string :=
  path.join (path.join temp_dir "deb") "var/lib/mecab/dic/ipadic-neologd".

Definition deb_doc_dir (temp_dir : string) : string :=
  path.join (path.join temp_dir "deb") "usr/share/doc/mecab-ipadic-neologd".

Definition rpm_lib_dir (temp_dir : string) : string :=
  path.join (path.join temp_dir "rpm") "usr/lib64/mecab/dic/ipadic-neologd".

Definition rpm_doc_dir (temp_dir version : string) : string :=
  path.join (path.join temp_dir "rpm")
    ("usr/share/doc/" +:+ MECAB_IPADIC_NEOLOGD_NAME +:+ "-" +:+ version).

(** The files of [input_dir] (as [os.listdir] and [os.path.isfile] see
    them in [w]) and the misc docs are hard links in [files_dir] and
    [docs_dir] of the world [ws]: the same inode under the new name. *)
Definition staged (w : world) (input_dir files_dir docs_dir : string)
    (ws : world) : Prop :=
  (∀ names f i,
     os.listdir input_dir w = (Ok names, w) → f ∈ names →
     ino_at w (path.join input_dir f) = Some i →
     ino_at ws (path.join files_dir f) = Some i) ∧
  (∀ d, d ∈ MECAB_IPADIC_NEOLOGD_MISC_DOCS →
        ∃ i, ino_at ws d = Some i ∧
             ino_at ws (path.join docs_dir (path.basename d)) = Some i).

(** The builder started one subprocess, [cmd] with [cmd_cwd], which saw
    the file system [seen]. *)
Definition started (w w' : world) (cmd : list string) (cmd_cwd : option string)
    (seen : filesystem) : Prop :=
  w_procs w' = Invocation cmd cmd_cwd seen :: w_procs w.

(** After the packaging command [pr] the builder removed the subtree at
    [staging] and nothing else: what the command left outside of it is
    what the builder returns. *)
Definition cleaned (w : world) (staging : string) (pr : process) (w' : world)
  : Prop :=
  tree (p_fs pr) !! canon (w_cwd w) staging = Some Dir ∧
  (∀ q, canon (w_cwd w) staging `suffix_of` q → tree (w_fs w') !! q = None) ∧
  (∀ q, ¬ canon (w_cwd w) staging `suffix_of` q →
        tree (w_fs w') !! q = tree (p_fs pr) !! q) ∧
  data (w_fs w') = data (p_fs pr).

(** The artifact at [p] is outside of the subtree at [staging], and is
    after the cleanup what the packaging command left. *)
Definition artifact_kept (w : world) (staging p : string) (pr : process)
    (w' : world) : Prop :=
  ¬ canon (w_cwd w) staging `suffix_of` canon (w_cwd w) p ∧
  tree (w_fs w') !! canon (w_cwd w) p = tree (p_fs pr) !! canon (w_cwd w) p.

(** Nothing that existed in [w] was touched by the builder: every entry
    and the bytes of every inode are the same in [seen], the file system
    the packaging command started on, and when the command has run the
    builder changes no entry that existed in [w]. *)
Definition preserved (w : world) (seen : filesystem) (pr : process) (w' : world)
  : Prop :=
  (∀ q n, tree (w_fs w) !! q = Some n → tree seen !! q = Some n) ∧
  (∀ i, (i < next_ino (w_fs w))%nat → data seen !! i = data (w_fs w) !! i) ∧
  (∀ q, is_Some (tree (w_fs w) !! q) →
        tree (w_fs w') !! q = tree (p_fs pr) !! q) ∧
  data (w_fs w') = data (p_fs pr).

(** The staged layout by location.  [lib] and [doc] are the directory
    names that lead from the staging root to the two directories, the
    innermost first.  The staging root is a directory of [ws]; every
    regular file of [input_dir] is a hard link under its own name in the
    directory at [lib] below the location of [root], every misc doc a
    hard link under its base name in the directory at [doc] below it.
    All these locations end in the location of [root]: they lie within
    the staging root. *)
Definition staged_below (w : world) (input_dir root : string)
    (lib doc : list string) (ws : world) : Prop :=
  tree (w_fs ws) !! canon (w_cwd w) root = Some Dir ∧
  (∀ names f i,
     os.listdir input_dir w = (Ok names, w) → f ∈ names →
     ino_at w (path.join input_dir f) = Some i →
     tree (w_fs ws) !! (f :: lib ++ canon (w_cwd w) root) = Some (File i)) ∧
  (∀ d, d ∈ MECAB_IPADIC_NEOLOGD_MISC_DOCS →
        ∃ i, ino_at ws d = Some i ∧
             tree (w_fs ws) !! (path.basename d :: doc ++ canon (w_cwd w) root)
               = Some (File i)).



(** ** The monad *)

Lemma bind_Ok_inv {A B} (m : M A) (k : A → M B) w b w' :
  bind m k w = (Ok b, w') →
  ∃ a w1, m w = (Ok a, w1) ∧ k a w1 = (Ok b, w').
Proof.
  unfold bind. destruct (m w) as [[a|e] w1]; [eauto|discriminate].
Qed.

Lemma bind_Ok {A B} (m : M A) (k : A → M B) w a w1 :
  m w = (Ok a, w1) → bind m k w = k a w1.
Proof. unfold bind. by intros ->. Qed.

Lemma bind_Err {A B} (m : M A) (k : A → M B) w e w1 :
  m w = (Err e, w1) → bind m k w = (Err e, w1).
Proof. unfold bind. by intros ->. Qed.

(** ** Strings *)

Lemma string_app_nil (b : string) : EmptyString +:+ b = b.
Proof. reflexivity. Qed.

Lemma string_app_cons x (a b : string) : String x a +:+ b = String x (a +:+ b).
Proof. reflexivity. Qed.

Lemma string_app_assoc (a b c : string) : (a +:+ b) +:+ c = a +:+ (b +:+ c).
Proof.
  induction a as [|x a IH]; [done|]. rewrite !string_app_cons. by rewrite IH.
Qed.

Lemma string_app_empty_r (a : string) : a +:+ EmptyString = a.
Proof.
  induction a as [|x a IH]; [done|]. rewrite string_app_cons. by rewrite IH.
Qed.

Lemma split_on_length sep s :
  length (split_on sep s) = S (count_sep sep s).
Proof.
  induction s as [|c s IH]; simpl; [done|].
  destruct (sep c); simpl; [by rewrite IH|].
  destruct (split_on sep s); simpl in *; lia.
Qed.

Lemma split_on_cons sep s : ∃ h t, split_on sep s = h :: t.
Proof.
  pose proof (split_on_length sep s) as H.
  destruct (split_on sep s) as [|h t]; [discriminate|eauto].
Qed.

Lemma split_on_app_sep sep a c b :
  sep c = true →
  split_on sep (a +:+ String c b) = split_on sep a ++ split_on sep b.
Proof.
  intros Hc. induction a as [|x a IH].
  - rewrite string_app_nil. simpl. by rewrite Hc.
  - rewrite string_app_cons. simpl. rewrite IH. destruct (sep x); [done|].
    destruct (split_on_cons sep a) as (h & t & ->). done.
Qed.

Lemma split_on_no_sep sep s : count_sep sep s = 0%nat → split_on sep s = [s].
Proof.
  induction s as [|c s IH]; simpl; [done|].
  destruct (sep c); [discriminate|]. intros H. by rewrite IH.
Qed.

Lemma count_sep_app sep a b :
  count_sep sep (a +:+ b) = (count_sep sep a + count_sep sep b)%nat.
Proof.
  induction a as [|x a IH]; [done|]. rewrite string_app_cons. simpl.
  rewrite IH. lia.
Qed.

(** The fields of a split have no separator in them. *)
Lemma split_on_fields sep s :
  Forall (λ f, count_sep sep f = 0%nat) (split_on sep s).
Proof.
  induction s as [|c s IH]; simpl; [by repeat constructor|].
  destruct (sep c) eqn:Hc; [by constructor|].
  destruct (split_on sep s) as [|h t]; [repeat constructor; simpl; by rewrite Hc|].
  inversion IH; subst. constructor; [simpl; by rewrite Hc|done].
Qed.

(** Two fields come from exactly one separator. *)
Lemma split_on_two sep s v r :
  split_on sep s = [v; r] →
  ∃ c, sep c = true ∧ s = v +:+ String c r.
Proof.
  revert v. induction s as [|c s IH]; simpl; intros v H; [discriminate|].
  destruct (sep c) eqn:Hc.
  - injection H as <- H. exists c. split; [done|].
    rewrite string_app_nil. f_equal.
    pose proof (split_on_length sep s) as Hl. rewrite H in Hl. simpl in Hl.
    assert (count_sep sep s = 0%nat) as H0 by lia.
    rewrite (split_on_no_sep _ _ H0) in H. by injection H.
  - destruct (split_on sep s) as [|h t] eqn:Hs; [discriminate|].
    injection H as <- ->. destruct (IH h eq_refl) as (c' & Hc' & ->).
    exists c'. by rewrite string_app_cons.
Qed.

(** ** C2: the version tag *)

(** C2. Version-tag parsing splits the tag at ['-'] or ['_'] into
    exactly two components: ["20170814-1"] and ["20170814_1"] both give
    [("20170814", "1")]; a tag with exactly one separator gives the
    text before it and the text after it; and a tag with no separator
    or with more than one does not give a pair: the unpacking raises
    [ValueError]. *)
Theorem version_tag_parsing :
  version_revision_from_version_tag "20170814-1" = Ok ("20170814", "1") ∧
  version_revision_from_version_tag "20170814_1" = Ok ("20170814", "1") ∧
  (∀ tag, count_sep is_tag_sep tag = 1%nat →
     ∃ version revision c,
       is_tag_sep c = true ∧ tag = version +:+ String c revision ∧
       version_revision_from_version_tag tag = Ok (version, revision)) ∧
  (∀ tag, count_sep is_tag_sep tag ≠ 1%nat →
     version_revision_from_version_tag tag = Err ValueError).
Proof.
  split; [done|]. split; [done|]. split.
  - intros tag H. unfold version_revision_from_version_tag.
    pose proof (split_on_length is_tag_sep tag) as Hl. rewrite H in Hl.
    destruct (split_on is_tag_sep tag) as [|v [|r [|x l]]] eqn:Hs;
      try discriminate.
    destruct (split_on_two _ _ _ _ Hs) as (c & Hc & Htag).
    by exists v, r, c.
  - intros tag H. unfold version_revision_from_version_tag.
    pose proof (split_on_length is_tag_sep tag) as Hl.
    destruct (split_on is_tag_sep tag) as [|v [|r [|x l]]]; try done.
    simpl in Hl. lia.
Qed.

(** ** The process runner *)

Lemma read_loop_spec reads w :
  read_loop reads w = (Ok tt, set_log (output_log reads ++ w_log w) w).
Proof.
  revert w. induction reads as [|o reads IH]; intros w.
  - by destruct w.
  - simpl. unfold bind, logging.info. rewrite IH. f_equal.
    unfold output_log. simpl. rewrite <- app_assoc. by destruct w.
Qed.

(** [__run_command], in one step. *)
Lemma run_command_spec command cwd w :
  __run_command command cwd w =
  match tool command cwd (w_fs w) with
  | None => (Err FileNotFoundError, w)
  | Some pr =>
      let w' := set_log (output_log (p_reads pr) ++ w_log w)
                  (set_fs (p_fs pr)
                     (add_proc (Invocation command cwd (w_fs w)) w)) in
      if (p_rc pr >? 0)%Z
      then (Err (MeCabPackageException (exit_code_message (p_rc pr))), w')
      else (Ok tt, w')
  end.
Proof.
  unfold __run_command. destruct (tool command cwd (w_fs w)) as [pr|]; [|done].
  unfold bind. rewrite read_loop_spec. simpl.
  by destruct (p_rc pr >? 0)%Z.
Qed.

Lemma run_command_Ok command cwd w u w' :
  __run_command command cwd w = (Ok u, w') →
  ∃ pr, tool command cwd (w_fs w) = Some pr ∧ (p_rc pr ≤ 0)%Z ∧
        w' = set_log (output_log (p_reads pr) ++ w_log w)
               (set_fs (p_fs pr)
                  (add_proc (Invocation command cwd (w_fs w)) w)).
Proof.
  rewrite run_command_spec.
  destruct (tool command cwd (w_fs w)) as [pr|]; [|discriminate]. simpl.
  destruct (p_rc pr >? 0)%Z eqn:Hrc; [discriminate|].
  intros [= <-]. exists pr. split; [done|]. split; [lia|done].
Qed.

(** ** The checks of [create_package] *)

Lemma check_loop_pass (f : string → string) docs w :
  forallb (isfile w) docs = true →
  for_ docs (λ d, let* is_file := os.path_isfile d in
                  if negb is_file
                  then raise (MeCabPackageException (f d))
                  else ret tt) w = (Ok tt, w).
Proof.
  induction docs as [|d docs IH]; simpl; [done|].
  intros [Hd Hds]%andb_prop. unfold bind at 1 2, os.path_isfile.
  rewrite Hd. simpl. by apply IH.
Qed.

Lemma check_loop_first (f : string → string) pre d post w :
  forallb (isfile w) pre = true →
  isfile w d = false →
  for_ (pre ++ d :: post)
       (λ d, let* is_file := os.path_isfile d in
             if negb is_file
             then raise (MeCabPackageException (f d))
             else ret tt) w = (Err (MeCabPackageException (f d)), w).
Proof.
  induction pre as [|x pre IH]; simpl.
  - intros _ Hd. unfold bind at 1 2, os.path_isfile. by rewrite Hd.
  - intros [Hx Hpre]%andb_prop Hd. unfold bind at 1 2, os.path_isfile.
    rewrite Hx. simpl. by apply IH.
Qed.

(** The first missing file of a list with a missing file. *)
Lemma first_missing w docs :
  forallb (isfile w) docs = false →
  ∃ pre d post, docs = pre ++ d :: post ∧
                forallb (isfile w) pre = true ∧ isfile w d = false.
Proof.
  induction docs as [|x docs IH]; simpl; [discriminate|].
  destruct (isfile w x) eqn:Hx; simpl.
  - intros (pre & d & post & -> & Hpre & Hd)%IH.
    exists (x :: pre), d, post. simpl. by rewrite Hx.
  - intros _. by exists [], x, docs.
Qed.

Lemma create_package_no_dictionary package_type input_dir version revision w :
  isfile w (path.join input_dir "sys.dic") = false →
  create_package package_type input_dir version revision w =
  (Err (MeCabPackageException (no_dictionary_message input_dir)), w).
Proof.
  intros H. unfold create_package.
  erewrite bind_Ok by reflexivity. rewrite H. cbn [negb].
  by erewrite bind_Err by reflexivity.
Qed.

Lemma create_package_missing_doc
    package_type input_dir version revision w pre d post :
  isfile w (path.join input_dir "sys.dic") = true →
  MECAB_IPADIC_NEOLOGD_MISC_DOCS = pre ++ d :: post →
  forallb (isfile w) pre = true →
  isfile w d = false →
  create_package package_type input_dir version revision w =
  (Err (MeCabPackageException (missing_doc_message d)), w).
Proof.
  intros H Hdocs Hpre Hd.
  unfold create_package. rewrite Hdocs.
  erewrite bind_Ok by reflexivity. rewrite H. cbn [negb].
  erewrite bind_Ok by reflexivity.
  by erewrite bind_Err
    by apply (check_loop_first missing_doc_message pre d post w Hpre Hd).
Qed.

(** With both checks passed, [create_package] is the builder of the
    requested type: the last test changes nothing. *)
Lemma create_package_validated package_type input_dir version revision w :
  validated w input_dir = true →
  create_package package_type input_dir version revision w =
  (if String.eqb package_type "tgz" then
     create_tgz_package input_dir version revision
   else if String.eqb package_type "deb" then
     create_deb_package input_dir version revision
   else if String.eqb package_type "rpm" then
     create_rpm_package input_dir version revision
   else
     raise (MeCabPackageException (unknown_type_message package_type))) w.
Proof.
  intros [H Hdocs]%andb_prop.
  unfold create_package.
  erewrite bind_Ok by reflexivity. rewrite H. cbn [negb].
  erewrite bind_Ok by reflexivity.
  erewrite bind_Ok
    by apply (check_loop_pass missing_doc_message _ w Hdocs).
  unfold bind at 1. unfold unknown_type_message.
  match goal with |- match ?m with _ => _ end = _ => destruct m as [[p|e] w'] end;
    done.
Qed.

(** ** Paths *)

Lemma is_slash_eq c : is_slash c = true → c = "/"%char.
Proof. unfold is_slash. by intros ?%Ascii.eqb_eq. Qed.

Lemma ends_with_slash_inv a :
  ends_with_slash a = true → ∃ a', a = a' +:+ "/".
Proof.
  induction a as [|c a IH]; [discriminate|].
  destruct a as [|c' a].
  - simpl. intros ->%is_slash_eq. by exists EmptyString.
  - intros H. destruct IH as [a' Ha']; [done|].
    exists (String c a'). by rewrite string_app_cons, <- Ha'.
Qed.

Lemma string_eqb_empty a : String.eqb a EmptyString = false ↔ a ≠ EmptyString.
Proof. by rewrite String.eqb_neq. Qed.

(** The components of a joined path: those of the first path, without
    the empty one after its trailing slash, then those of the second. *)
Lemma components_join a b :
  starts_with_slash b = false → a ≠ EmptyString →
  ∃ pre, components (path.join a b) = pre ++ components b ∧
         (pre = components a ∨ pre ++ [EmptyString] = components a).
Proof.
  intros Hb Ha. unfold path.join. rewrite Hb.
  apply string_eqb_empty in Ha. rewrite Ha. simpl.
  destruct (ends_with_slash a) eqn:Hs.
  - destruct (ends_with_slash_inv _ Hs) as [a' ->].
    exists (components a'). unfold components.
    rewrite string_app_assoc, string_app_cons, string_app_nil.
    rewrite !split_on_app_sep by done. eauto.
  - exists (components a). unfold components.
    rewrite string_app_cons, string_app_nil.
    rewrite split_on_app_sep by done. eauto.
Qed.

Lemma step_noop l : step l EmptyString = l.
Proof. unfold step. by rewrite decide_True by auto. Qed.

Lemma fold_step_join a b l :
  starts_with_slash b = false → a ≠ EmptyString →
  fold_left step (components (path.join a b)) l =
  fold_left step (components b) (fold_left step (components a) l).
Proof.
  intros Hb Ha. destruct (components_join a b Hb Ha) as (pre & -> & [->| <-]).
  - by rewrite fold_left_app.
  - rewrite !fold_left_app. simpl. by rewrite step_noop.
Qed.

Lemma starts_with_slash_join a b :
  starts_with_slash b = false → a ≠ EmptyString →
  starts_with_slash (path.join a b) = starts_with_slash a.
Proof.
  intros Hb Ha. unfold path.join. rewrite Hb.
  destruct a as [|c a]; [done|].
  destruct (_ || _); by rewrite string_app_cons.
Qed.

Lemma join_nonempty a b : a ≠ EmptyString → path.join a b ≠ EmptyString.
Proof.
  intros Ha. unfold path.join.
  destruct (starts_with_slash b) eqn:Hb; [by destruct b|].
  destruct a as [|c a]; [done|].
  destruct (_ || _); by rewrite string_app_cons.
Qed.

Lemma join_nonempty_r a b : b ≠ EmptyString → path.join a b ≠ EmptyString.
Proof.
  intros Hb. unfold path.join.
  destruct (starts_with_slash b); [done|].
  destruct a as [|c a]; [by destruct (_ || _)|].
  destruct (_ || _); by rewrite string_app_cons.
Qed.

Lemma canon_join cwd a b :
  starts_with_slash b = false → a ≠ EmptyString →
  canon cwd (path.join a b) = fold_left step (components b) (canon cwd a).
Proof.
  intros Hb Ha. unfold canon, start.
  by rewrite starts_with_slash_join, fold_step_join.
Qed.

Lemma plain_inv c :
  plain c = true →
  count_sep is_slash c = 0%nat ∧ c ≠ EmptyString ∧ c ≠ "." ∧ c ≠ "..".
Proof.
  unfold plain, no_slash.
  intros [[[H1%Nat.eqb_eq H2%negb_true_iff]%andb_prop
             H3%negb_true_iff]%andb_prop H4%negb_true_iff]%andb_prop.
  by rewrite String.eqb_neq in H2, H3, H4.
Qed.

Lemma plain_relative c : plain c = true → starts_with_slash c = false.
Proof.
  intros (H & Hne & _)%plain_inv. destruct c as [|x c]; [done|].
  simpl in *. by destruct (is_slash x).
Qed.

Lemma step_plain l c : plain c = true → step l c = c :: l.
Proof.
  intros (_ & H1 & H2 & H3)%plain_inv. unfold step.
  rewrite decide_False by (intros [?|?]; done). by rewrite decide_False.
Qed.

Lemma components_plain c : plain c = true → components c = [c].
Proof. intros (H & _)%plain_inv. by apply split_on_no_sep. Qed.

(** A name joined to a path names the entry of that name in it. *)
Lemma canon_join_plain cwd a c :
  plain c = true → a ≠ EmptyString →
  canon cwd (path.join a c) = c :: canon cwd a.
Proof.
  intros Hc Ha. rewrite canon_join by auto using plain_relative.
  rewrite components_plain by done. simpl. by apply step_plain.
Qed.

Lemma starts_with_slash_app a b :
  a ≠ EmptyString → starts_with_slash (a +:+ b) = starts_with_slash a.
Proof. by destruct a. Qed.

(** The base name of a path that was joined from a name is the name. *)
Lemma basename_join a c :
  no_slash c = true → a ≠ EmptyString → path.basename (path.join a c) = c.
Proof.
  intros Hc%Nat.eqb_eq Ha. unfold path.basename.
  assert (starts_with_slash c = false) as Hrel.
  { destruct c as [|x c]; [done|]. simpl in *. by destruct (is_slash x). }
  destruct (components_join a c Hrel Ha) as (pre & Hj & _).
  unfold components in Hj. rewrite Hj, (split_on_no_sep _ _ Hc).
  apply List.last_last.
Qed.

(** ** Walking the tree *)

Lemma walk_canon t l cs q : walk t l cs = Ok q → q = fold_left step cs l.
Proof.
  revert l. induction cs as [|c cs IH]; simpl; intros l; [by intros [= ->]|].
  destruct (t !! l) as [[|i]|]; try discriminate. apply IH.
Qed.

Lemma walk_mono t t' l cs q :
  t ⊆ t' → walk t l cs = Ok q → walk t' l cs = Ok q.
Proof.
  intros Hsub. revert l. induction cs as [|c cs IH]; simpl; intros l; [done|].
  destruct (t !! l) as [[|i]|] eqn:Hl; try discriminate.
  rewrite (lookup_weaken _ _ _ _ Hl Hsub). apply IH.
Qed.

Lemma walk_app t l cs ds :
  walk t l (cs ++ ds) =
  match walk t l cs with
  | Ok q => walk t q ds
  | Err e => Err e
  end.
Proof.
  revert l. induction cs as [|c cs IH]; simpl; intros l; [done|].
  destruct (t !! l) as [[|i]|]; try done.
Qed.

Lemma fold_step_drop_trailing cs l :
  fold_left step (drop_trailing_empty cs) l = fold_left step cs l.
Proof.
  revert l. induction cs as [|c cs IH]; intros l; [done|]. simpl.
  destruct (drop_trailing_empty cs) as [|x r] eqn:Hd.
  - rewrite <- IH. simpl. destruct (decide (c = EmptyString)) as [->|]; [|done].
    by rewrite step_noop.
  - by rewrite <- IH.
Qed.

(** With the last location a directory, the trailing slashes resolve. *)
Lemma walk_drop_trailing t l cs q :
  walk t l (drop_trailing_empty cs) = Ok q →
  t !! q = Some Dir →
  walk t l cs = Ok q.
Proof.
  revert l. induction cs as [|c cs IH]; intros l; [done|]. simpl.
  destruct (drop_trailing_empty cs) as [|x r] eqn:Hd.
  - destruct (decide (c = EmptyString)) as [->|].
    + simpl. intros [= ->] Hq. rewrite Hq, step_noop. by apply IH.
    + simpl. destruct (t !! l) as [[|i]|]; try discriminate.
      intros [= <-] Hq. by apply IH.
  - simpl. destruct (t !! l) as [[|i]|]; try discriminate. apply IH.
Qed.

Lemma resolve_canon t cwd p q : resolve t cwd p = Ok q → q = canon cwd p.
Proof.
  unfold resolve, canon. destruct (String.eqb p EmptyString); [discriminate|].
  apply walk_canon.
Qed.

Lemma resolve_dir_canon t cwd p q : resolve_dir t cwd p = Ok q → q = canon cwd p.
Proof.
  unfold resolve_dir, canon. destruct (String.eqb p EmptyString); [discriminate|].
  intros ->%walk_canon. apply fold_step_drop_trailing.
Qed.

Lemma resolve_mono t t' cwd p q :
  t ⊆ t' → resolve t cwd p = Ok q → resolve t' cwd p = Ok q.
Proof.
  unfold resolve. destruct (String.eqb p EmptyString); [done|]. apply walk_mono.
Qed.

Lemma resolve_nonempty t cwd p q : resolve t cwd p = Ok q → p ≠ EmptyString.
Proof. unfold resolve. by intros H ->. Qed.

Lemma resolve_dir_resolve t cwd p q :
  resolve_dir t cwd p = Ok q → t !! q = Some Dir → resolve t cwd p = Ok q.
Proof.
  unfold resolve, resolve_dir. destruct (String.eqb p EmptyString); [done|].
  apply walk_drop_trailing.
Qed.

(** ** The primitives, case by case *)

Lemma os_mkdir_inv p w r w' :
  os.mkdir p w = (r, w') →
  (∃ e, r = Err e ∧ w' = w) ∨
  (r = Ok tt ∧
   resolve_dir (tree (w_fs w)) (w_cwd w) p = Ok (canon (w_cwd w) p) ∧
   tree (w_fs w) !! canon (w_cwd w) p = None ∧
   creatable (tree (w_fs w)) (canon (w_cwd w) p) = true ∧
   w' = set_tree (<[canon (w_cwd w) p := Dir]> (tree (w_fs w))) w).
Proof.
  unfold os.mkdir.
  destruct (resolve_dir _ _ p) as [q|e] eqn:Hr; [|intros [= <- <-]; eauto].
  pose proof (resolve_dir_canon _ _ _ _ Hr) as ->.
  destruct (tree (w_fs w) !! _) eqn:Hq; [intros [= <- <-]; eauto|].
  destruct (creatable _ _) eqn:Hc; intros [= <- <-]; [right|by eauto].
  done.
Qed.

Lemma os_link_inv src dst w r w' :
  os.link src dst w = (r, w') →
  (∃ e, r = Err e ∧ w' = w) ∨
  (r = Ok tt ∧ ∃ i,
     ino_at w src = Some i ∧
     resolve (tree (w_fs w)) (w_cwd w) dst = Ok (canon (w_cwd w) dst) ∧
     tree (w_fs w) !! canon (w_cwd w) dst = None ∧
     creatable (tree (w_fs w)) (canon (w_cwd w) dst) = true ∧
     w' = set_tree (<[canon (w_cwd w) dst := File i]> (tree (w_fs w))) w).
Proof.
  unfold os.link, ino_at, lookup_path.
  destruct (resolve _ _ src) as [qs|e]; [|intros [= <- <-]; eauto].
  destruct (tree (w_fs w) !! qs) as [n|]; [|intros [= <- <-]; eauto].
  destruct (resolve _ _ dst) as [qd|e] eqn:Hr; [|intros [= <- <-]; eauto].
  pose proof (resolve_canon _ _ _ _ Hr) as ->.
  destruct (tree (w_fs w) !! canon _ dst) eqn:Hq; [intros [= <- <-]; eauto|].
  destruct (creatable _ _) eqn:Hc; [|intros [= <- <-]; eauto].
  destruct n as [|i]; intros [= <- <-]; [eauto|].
  right. split; [done|]. by exists i.
Qed.

Lemma write_file_inv p content w r w' :
  write_file p content w = (r, w') →
  (∃ e, r = Err e ∧ w' = w) ∨
  (r = Ok tt ∧
   resolve (tree (w_fs w)) (w_cwd w) p = Ok (canon (w_cwd w) p) ∧
   ((∃ i, tree (w_fs w) !! canon (w_cwd w) p = Some (File i) ∧
          w' = set_fs (FS (tree (w_fs w)) (<[i := content]> (data (w_fs w)))
                          (next_ino (w_fs w))) w) ∨
    (tree (w_fs w) !! canon (w_cwd w) p = None ∧
     creatable (tree (w_fs w)) (canon (w_cwd w) p) = true ∧
     w' = set_fs (FS (<[canon (w_cwd w) p := File (next_ino (w_fs w))]>
                        (tree (w_fs w)))
                     (<[next_ino (w_fs w) := content]> (data (w_fs w)))
                     (S (next_ino (w_fs w)))) w))).
Proof.
  unfold write_file.
  destruct (resolve _ _ p) as [q|e] eqn:Hr; [|intros [= <- <-]; eauto].
  pose proof (resolve_canon _ _ _ _ Hr) as ->.
  destruct (tree (w_fs w) !! _) as [[|i]|] eqn:Hq.
  - intros [= <- <-]; eauto.
  - intros [= <- <-]. right. split; [done|]. split; [done|]. left. eauto.
  - destruct (creatable _ _) eqn:Hc; intros [= <- <-]; [|by eauto].
    right. split; [done|]. split; [done|]. by right.
Qed.

Lemma rmtree_inv p w r w' :
  shutil.rmtree p w = (r, w') →
  (∃ e, r = Err e ∧ w' = w) ∨
  (r = Ok tt ∧
   resolve (tree (w_fs w)) (w_cwd w) p = Ok (canon (w_cwd w) p) ∧
   tree (w_fs w) !! canon (w_cwd w) p = Some Dir ∧
   w' = set_tree (without_subtree (canon (w_cwd w) p) (tree (w_fs w))) w).
Proof.
  unfold shutil.rmtree.
  destruct (resolve _ _ p) as [q|e] eqn:Hr; [|intros [= <- <-]; eauto].
  pose proof (resolve_canon _ _ _ _ Hr) as ->.
  destruct (tree (w_fs w) !! _) as [[|i]|] eqn:Hq; intros [= <- <-];
    eauto 10.
Qed.

Lemma listdir_inv p w r w' :
  os.listdir p w = (r, w') →
  w' = w ∧
  ∀ names, r = Ok names →
    resolve (tree (w_fs w)) (w_cwd w) p = Ok (canon (w_cwd w) p) ∧
    tree (w_fs w) !! canon (w_cwd w) p = Some Dir ∧
    names = children (tree (w_fs w)) (canon (w_cwd w) p).
Proof.
  unfold os.listdir.
  destruct (resolve _ _ p) as [q|e] eqn:Hr; [|by intros [= <- <-]].
  pose proof (resolve_canon _ _ _ _ Hr) as ->.
  destruct (tree (w_fs w) !! _) as [[|i]|] eqn:Hq; intros [= <- <-];
    (split; [done|]); intros names [= <-]; done.
Qed.

(** The names of a directory are the heads of the entries in it. *)
Lemma elem_of_children t q c :
  c ∈ children t q ↔ is_Some (t !! (c :: q)).
Proof.
  unfold children. rewrite list_elem_of_omap. split.
  - intros ([k n] & Hin & Hk). apply elem_of_map_to_list in Hin. simpl in Hk.
    destruct k as [|c' p]; [done|]. destruct (decide (p = q)) as [->|]; [|done].
    injection Hk as ->. eauto.
  - intros [n Hn]. exists (c :: q, n). split; [by apply elem_of_map_to_list|].
    simpl. by rewrite decide_True.
Qed.

Lemma mkdtemp_from_inv names w r w' :
  tempfile.mkdtemp_from names w = (r, w') →
  ∃ rest,
    (∃ e, r = Err e ∧ w' = set_names rest w) ∨
    (∃ name, r = Ok (path.join (w_tmpdir w) ("tmp" +:+ name)) ∧
             os.mkdir (path.join (w_tmpdir w) ("tmp" +:+ name))
               (set_names rest w) = (Ok tt, w')).
Proof.
  revert w. induction names as [|name names IH]; intros w; simpl.
  - intros [= <- <-]. exists []. eauto.
  - destruct (os.mkdir _ _) as [[[]|e] w1] eqn:Hm.
    + intros [= <- <-]. exists names. right. eauto.
    + destruct (os_mkdir_inv _ _ _ _ Hm) as [(e' & _ & ->)|[? _]]; [|done].
      destruct e; try (intros [= <- <-]; exists names; by eauto).
      intros (rest & H)%IH. exists rest. exact H.
Qed.

(** ** What the script adds *)

Lemma grows_refl w : grows w w.
Proof. by split. Qed.

Lemma grows_trans w1 w2 w3 : grows w1 w2 → grows w2 w3 → grows w1 w3.
Proof.
  intros [] []. split; try congruence; try lia.
  - by etrans.
  - intros i Hi. rewrite grows_data1 by lia. by apply grows_data0.
Qed.

Lemma grows_same w w' :
  w_fs w' = w_fs w → w_cwd w' = w_cwd w → w_tmpdir w' = w_tmpdir w →
  w_procs w' = w_procs w → grows w w'.
Proof. intros H1 H2 H3 H4. split; rewrite ?H1; done. Qed.

Lemma grows_insert w q n :
  tree (w_fs w) !! q = None →
  grows w (set_tree (<[q := n]> (tree (w_fs w))) w).
Proof. intros H. split; simpl; try done. by apply insert_subseteq. Qed.

Lemma os_mkdir_grows p w r w' : os.mkdir p w = (r, w') → grows w w'.
Proof.
  intros [(e & _ & ->)|(_ & _ & H & _ & ->)]%os_mkdir_inv;
    [apply grows_refl|by apply grows_insert].
Qed.

Lemma os_link_grows src dst w r w' : os.link src dst w = (r, w') → grows w w'.
Proof.
  intros [(e & _ & ->)|(_ & i & _ & _ & H & _ & ->)]%os_link_inv;
    [apply grows_refl|by apply grows_insert].
Qed.

Lemma mkdtemp_grows w r w' : tempfile.mkdtemp w = (r, w') → grows w w'.
Proof.
  unfold tempfile.mkdtemp.
  intros (rest & [(e & _ & ->)|(name & _ & H%os_mkdir_grows)])%mkdtemp_from_inv.
  - by apply grows_same.
  - eapply grows_trans; [|exact H]. by apply grows_same.
Qed.

Lemma lookup_path_mono w w' p n :
  grows w w' → lookup_path w p = Some n → lookup_path w' p = Some n.
Proof.
  intros [Hsub _ _ Hcwd _ _]. unfold lookup_path. rewrite Hcwd.
  destruct (resolve (tree (w_fs w)) _ p) as [q|] eqn:Hr; [|done].
  rewrite (resolve_mono _ _ _ _ _ Hsub Hr). intros Hq.
  by eapply lookup_weaken.
Qed.

Lemma ino_at_mono w w' p i :
  grows w w' → ino_at w p = Some i → ino_at w' p = Some i.
Proof.
  intros Hg. unfold ino_at.
  destruct (lookup_path w p) as [[|j]|] eqn:Hl; try done.
  intros [= ->]. by rewrite (lookup_path_mono _ _ _ _ Hg Hl).
Qed.

Lemma isfile_ino_at w p : isfile w p = true ↔ ∃ i, ino_at w p = Some i.
Proof.
  unfold isfile, ino_at. destruct (lookup_path w p) as [[|j]|]; split;
    try done; try (by intros [? ?]); eauto.
Qed.

Lemma isdir_mono w w' p : grows w w' → isdir w p = true → isdir w' p = true.
Proof.
  intros Hg. unfold isdir.
  destruct (lookup_path w p) as [[|j]|] eqn:Hl; try done.
  by rewrite (lookup_path_mono _ _ _ _ Hg Hl).
Qed.

Lemma ino_at_lookup w p i :
  ino_at w p = Some i →
  resolve (tree (w_fs w)) (w_cwd w) p = Ok (canon (w_cwd w) p) ∧
  tree (w_fs w) !! canon (w_cwd w) p = Some (File i).
Proof.
  unfold ino_at, lookup_path.
  destruct (resolve _ _ p) as [q|] eqn:Hr; [|done].
  pose proof (resolve_canon _ _ _ _ Hr) as ->.
  destruct (tree (w_fs w) !! _) as [[|j]|]; try done. by intros [= ->].
Qed.

Lemma ino_at_intro w p i :
  resolve (tree (w_fs w)) (w_cwd w) p = Ok (canon (w_cwd w) p) →
  tree (w_fs w) !! canon (w_cwd w) p = Some (File i) →
  ino_at w p = Some i.
Proof. unfold ino_at, lookup_path. by intros -> ->. Qed.

Lemma isdir_intro w p :
  resolve (tree (w_fs w)) (w_cwd w) p = Ok (canon (w_cwd w) p) →
  tree (w_fs w) !! canon (w_cwd w) p = Some Dir →
  isdir w p = true.
Proof. unfold isdir, lookup_path. by intros -> ->. Qed.

Lemma isdir_lookup w p :
  isdir w p = true →
  resolve (tree (w_fs w)) (w_cwd w) p = Ok (canon (w_cwd w) p) ∧
  tree (w_fs w) !! canon (w_cwd w) p = Some Dir.
Proof.
  unfold isdir, lookup_path.
  destruct (resolve _ _ p) as [q|] eqn:Hr; [|done].
  pose proof (resolve_canon _ _ _ _ Hr) as ->.
  by destruct (tree (w_fs w) !! _) as [[|j]|].
Qed.

(** A directory that was made is a directory. *)
Lemma os_mkdir_isdir p w w' : os.mkdir p w = (Ok tt, w') → isdir w' p = true.
Proof.
  intros H. pose proof (os_mkdir_grows _ _ _ _ H) as Hg.
  destruct (os_mkdir_inv _ _ _ _ H) as [(e & ? & _)|(_ & Hr & Hq & _ & ->)];
    [done|].
  apply isdir_intro; simpl.
  - apply resolve_dir_resolve; [|by rewrite lookup_insert_eq].
    unfold resolve_dir in *. destruct (String.eqb p EmptyString); [done|].
    eapply walk_mono; [|exact Hr]. by apply insert_subseteq.
  - by rewrite lookup_insert_eq.
Qed.

(** A link names the inode of its source. *)
Lemma os_link_ino src dst w w' :
  os.link src dst w = (Ok tt, w') →
  ∃ i, ino_at w src = Some i ∧ ino_at w' dst = Some i.
Proof.
  intros [(e & ? & _)|(_ & i & Hi & Hr & Hq & _ & ->)]%os_link_inv; [done|].
  exists i. split; [done|]. apply ino_at_intro; simpl.
  - eapply resolve_mono; [|exact Hr]. by apply insert_subseteq.
  - by rewrite lookup_insert_eq.
Qed.

(** ** Worlds that are trees stay trees *)

Lemma plain_intro c :
  count_sep is_slash c = 0%nat → c ≠ EmptyString → c ≠ "." → c ≠ ".." →
  plain c = true.
Proof.
  intros H0 H1 H2 H3. unfold plain, no_slash. rewrite H0. simpl.
  apply String.eqb_neq in H1, H2, H3. by rewrite H1, H2, H3.
Qed.

Lemma wf_tree_plain t q :
  wf_tree t → is_Some (t !! q) → Forall (λ c, plain c = true) q.
Proof.
  intros [_ Hwf]. induction q as [|c q IH]; intros [n Hn]; [constructor|].
  destruct (Hwf _ _ _ Hn) as [Hc Hq]. constructor; [done|]. apply IH. eauto.
Qed.

Lemma step_all_plain l c :
  Forall (λ c, plain c = true) l → count_sep is_slash c = 0%nat →
  Forall (λ c, plain c = true) (step l c).
Proof.
  intros Hl Hc. unfold step.
  destruct (decide _) as [|Hn]; [done|].
  destruct (decide _) as [|Hn']; [destruct l; [done|by inversion Hl]|].
  constructor; [|done]. apply plain_intro; [done|..]; intros ->; auto.
Qed.

Lemma fold_step_all_plain cs l :
  Forall (λ c, plain c = true) l →
  Forall (λ c, count_sep is_slash c = 0%nat) cs →
  Forall (λ c, plain c = true) (fold_left step cs l).
Proof.
  revert l. induction cs as [|c cs IH]; intros l Hl Hcs; [done|].
  inversion Hcs; subst. simpl. apply IH; [|done]. by apply step_all_plain.
Qed.

Lemma canon_plain w p :
  good w → Forall (λ c, plain c = true) (canon (w_cwd w) p).
Proof.
  intros [Ht _ Hcwd]. unfold canon. apply fold_step_all_plain.
  - unfold start. destruct (starts_with_slash p); [constructor|].
    eapply wf_tree_plain; eauto.
  - apply split_on_fields.
Qed.

Lemma creatable_inv t q :
  creatable t q = true → ∃ c p, q = c :: p ∧ t !! p = Some Dir.
Proof.
  destruct q as [|c p]; [done|]. simpl. intros ?%bool_decide_eq_true. eauto.
Qed.

Lemma cons_neq {A} (c : A) (p : list A) : p ≠ c :: p.
Proof. intros H. apply (f_equal length) in H. simpl in H. lia. Qed.

Lemma wf_tree_insert t q n :
  wf_tree t → Forall (λ c, plain c = true) q → creatable t q = true →
  t !! q = None → wf_tree (<[q := n]> t).
Proof.
  intros [Hroot Hwf] Hplain (c & p & -> & Hp)%creatable_inv Hq. split.
  - by rewrite lookup_insert_ne.
  - intros c' p' n'. rewrite lookup_insert. case_decide as Heq.
    + injection Heq as <- <-. intros _. split; [by inversion Hplain|].
      rewrite lookup_insert_ne by apply not_eq_sym, cons_neq. done.
    + intros [Hc' Hp']%Hwf. split; [done|].
      rewrite lookup_insert_ne; [done|]. intros <-. congruence.
Qed.

Lemma good_insert w q n :
  good w → Forall (λ c, plain c = true) q →
  creatable (tree (w_fs w)) q = true →
  tree (w_fs w) !! q = None →
  (∀ i, n = File i → (i < next_ino (w_fs w))%nat) →
  good (set_tree (<[q := n]> (tree (w_fs w))) w).
Proof.
  intros [Ht Hi Hcwd] Hplain Hc Hq Hn. split; simpl.
  - by apply wf_tree_insert.
  - intros q' i. simpl. rewrite lookup_insert. case_decide; [|by apply Hi].
    intros [= ->]. by apply Hn.
  - rewrite lookup_insert_ne; [done|]. intros ->. congruence.
Qed.

Lemma good_same w w' :
  w_fs w' = w_fs w → w_cwd w' = w_cwd w → good w → good w'.
Proof. intros H1 H2 []. split; rewrite ?H1, ?H2; done. Qed.

Lemma os_mkdir_good p w r w' : os.mkdir p w = (r, w') → good w → good w'.
Proof.
  intros [(e & _ & ->)|(_ & _ & Hq & Hc & ->)]%os_mkdir_inv Hg; [done|].
  apply good_insert; auto using canon_plain. done.
Qed.

Lemma ino_at_bounded w p i :
  good w → ino_at w p = Some i → (i < next_ino (w_fs w))%nat.
Proof. intros [_ Hi _] [_ H]%ino_at_lookup. by eapply Hi. Qed.

Lemma os_link_good src dst w r w' : os.link src dst w = (r, w') → good w → good w'.
Proof.
  intros [(e & _ & ->)|(_ & i & Hi & _ & Hq & Hc & ->)]%os_link_inv Hg; [done|].
  apply good_insert; auto using canon_plain.
  intros ? [= <-]. by eapply ino_at_bounded.
Qed.

Lemma mkdtemp_good w r w' : tempfile.mkdtemp w = (r, w') → good w → good w'.
Proof.
  unfold tempfile.mkdtemp.
  intros (rest & [(e & _ & ->)|(name & _ & H)])%mkdtemp_from_inv Hg.
  - by apply (good_same w).
  - eapply os_mkdir_good; [exact H|]. by apply (good_same w).
Qed.

(** Below a location that is not in a tree there is nothing. *)
Lemma wf_tree_ancestor t s q :
  wf_tree t → s `suffix_of` q → is_Some (t !! q) → is_Some (t !! s).
Proof.
  intros Hwf [k ->]. induction k as [|c k IH]; [done|].
  intros [n Hn]. apply IH. destruct Hwf as [_ Hwf].
  destruct (Hwf _ _ _ Hn) as [_ Hp]. eauto.
Qed.

(** ** What is added *)

Lemma adds_refl P w : adds P w w.
Proof. intros q n. by left. Qed.

Lemma adds_trans P w1 w2 w3 : adds P w1 w2 → adds P w2 w3 → adds P w1 w3.
Proof.
  intros H1 H2 q n [Hn|Hn]%H2; [|by right]. by apply H1.
Qed.

Lemma adds_weaken (P P' : loc → node → Prop) w w' :
  (∀ q n, P q n → P' q n) → adds P w w' → adds P' w w'.
Proof. intros HP H q n [?|?]%H; [by left|right; auto]. Qed.

Lemma adds_same P w w' : w_fs w' = w_fs w → adds P w w'.
Proof. intros H q n. rewrite H. by left. Qed.

Lemma adds_insert (P : loc → node → Prop) w q n :
  P q n → adds P w (set_tree (<[q := n]> (tree (w_fs w))) w).
Proof.
  intros HP q' n'. simpl. rewrite lookup_insert. case_decide as Heq.
  - intros [= <-]. subst. by right.
  - by left.
Qed.

Lemma os_mkdir_adds p w r w' :
  os.mkdir p w = (r, w') →
  adds (λ q n, q = canon (w_cwd w) p ∧ n = Dir) w w'.
Proof.
  intros [(e & _ & ->)|(_ & _ & _ & _ & ->)]%os_mkdir_inv;
    [apply adds_refl|by apply adds_insert].
Qed.

Lemma os_link_adds src dst w r w' :
  os.link src dst w = (r, w') →
  adds (λ q n, q = canon (w_cwd w) dst ∧ ∃ i, n = File i) w w'.
Proof.
  intros [(e & _ & ->)|(_ & i & _ & _ & _ & _ & ->)]%os_link_inv;
    [apply adds_refl|apply adds_insert; eauto].
Qed.

(** ** [pathlib] *)

Lemma mkdir_exist_ok_inv p w r w' :
  pathlib.mkdir_exist_ok p w = (r, w') →
  grows w w' ∧ (good w → good w') ∧
  adds (λ q n, q = canon (w_cwd w) p ∧ n = Dir) w w' ∧
  (r = Ok tt → isdir w' p = true).
Proof.
  unfold pathlib.mkdir_exist_ok.
  destruct (os.mkdir p w) as [[[]|e] w1] eqn:Hm.
  - intros [= <- <-]. split; [by eapply os_mkdir_grows|].
    split; [by eapply os_mkdir_good|]. split; [by eapply os_mkdir_adds|].
    intros _. by eapply os_mkdir_isdir.
  - destruct (os_mkdir_inv _ _ _ _ Hm) as [(e' & _ & ->)|[? _]]; [|done].
    assert (∀ e0, (if isdir w p then (Ok tt, w) else (Err e0, w)) = (r, w') →
                  grows w w' ∧ (good w → good w') ∧
                  adds (λ q n, q = canon (w_cwd w) p ∧ n = Dir) w w' ∧
                  (r = Ok tt → isdir w' p = true)) as Hif.
    { intros e0. destruct (isdir w p) eqn:Hd; intros [= <- <-];
        (split; [apply grows_refl|]); (split; [done|]);
        (split; [apply adds_refl|]); done. }
    destruct e; try apply Hif.
    intros [= <- <-]. split; [apply grows_refl|]. split; [done|].
    split; [apply adds_refl|done].
Qed.

Lemma mkdir_parents_inv absolute rparts w r w' :
  pathlib.mkdir_parents absolute rparts w = (r, w') →
  grows w w' ∧ (good w → good w') ∧
  adds (λ q n, n = Dir) w w' ∧
  (r = Ok tt → isdir w' (pathlib.to_str absolute rparts) = true).
Proof.
  revert w r w'. induction rparts as [|c rp IH]; intros w r w'.
  - cbn [pathlib.mkdir_parents].
    destruct (os.mkdir _ w) as [[[]|e] w1] eqn:Hm.
    + intros [= <- <-]. split; [by eapply os_mkdir_grows|].
      split; [by eapply os_mkdir_good|].
      split; [|intros _; by eapply os_mkdir_isdir].
      eapply adds_weaken; [|by eapply os_mkdir_adds]. by intros ?? [_ ->].
    + destruct (os_mkdir_inv _ _ _ _ Hm) as [(e' & _ & ->)|[? _]]; [|done].
      assert (∀ e0, (if isdir w (pathlib.to_str absolute [])
                     then (Ok tt, w) else (Err e0, w)) = (r, w') →
                  grows w w' ∧ (good w → good w') ∧
                  adds (λ q n, n = Dir) w w' ∧
                  (r = Ok tt → isdir w' (pathlib.to_str absolute []) = true))
        as Hif.
      { intros e0. destruct (isdir w _) eqn:Hd; intros [= <- <-];
          (split; [apply grows_refl|]); (split; [done|]);
          (split; [apply adds_refl|]); done. }
      destruct e; try apply Hif.
      intros [= <- <-]. split; [apply grows_refl|]. split; [done|].
      split; [apply adds_refl|done].
  - cbn [pathlib.mkdir_parents].
    set (self := pathlib.to_str absolute (c :: rp)).
    destruct (os.mkdir self w) as [[[]|e] w1] eqn:Hm.
    + intros [= <- <-]. split; [by eapply os_mkdir_grows|].
      split; [by eapply os_mkdir_good|].
      split; [|intros _; by eapply os_mkdir_isdir].
      eapply adds_weaken; [|by eapply os_mkdir_adds]. by intros ?? [_ ->].
    + destruct (os_mkdir_inv _ _ _ _ Hm) as [(e' & _ & ->)|[? _]]; [|done].
      assert (∀ e0, (if isdir w self then (Ok tt, w) else (Err e0, w)) = (r, w') →
                  grows w w' ∧ (good w → good w') ∧
                  adds (λ q n, n = Dir) w w' ∧
                  (r = Ok tt → isdir w' self = true)) as Hif.
      { intros e0. destruct (isdir w self) eqn:Hd; intros [= <- <-];
          (split; [apply grows_refl|]); (split; [done|]);
          (split; [apply adds_refl|]); done. }
      destruct e; try apply Hif.
      unfold bind.
      destruct (pathlib.mkdir_parents absolute rp w) as [[[]|e] w1] eqn:Hp.
      * destruct (IH _ _ _ Hp) as (Hg1 & Hgood1 & Ha1 & _).
        intros (Hg2 & Hgood2 & Ha2 & Hd2)%mkdir_exist_ok_inv.
        split; [by eapply grows_trans|]. split; [by auto|]. split; [|done].
        eapply adds_trans; [exact Ha1|].
        eapply adds_weaken; [|exact Ha2]. by intros ?? [_ ->].
      * destruct (IH _ _ _ Hp) as (Hg1 & Hgood1 & Ha1 & _).
        intros [= <- <-]. done.
Qed.

Lemma mkdir_p_inv p w r w' :
  __mkdir_p p w = (r, w') →
  grows w w' ∧ (good w → good w') ∧
  adds (λ q n, n = Dir) w w' ∧
  (r = Ok tt →
   isdir w' (pathlib.to_str (starts_with_slash p) (rev (pathlib.parts p))) = true).
Proof. apply mkdir_parents_inv. Qed.

(** ** The two linking loops *)

Lemma link_files_loop input_dir target names w r w' :
  for_ names (λ filename,
    let* is_file := os.path_isfile (path.join input_dir filename) in
    if is_file
    then os.link (path.join input_dir filename) (path.join target filename)
    else ret tt) w = (r, w') →
  grows w w' ∧ (good w → good w') ∧
  adds (λ q n, ∃ f i, f ∈ names ∧
                      q = canon (w_cwd w) (path.join target f) ∧ n = File i)
       w w' ∧
  (r = Ok tt →
   ∀ f i, f ∈ names → ino_at w (path.join input_dir f) = Some i →
          ino_at w' (path.join target f) = Some i).
Proof.
  revert w. induction names as [|x names IH]; intros w.
  - intros [= <- <-]. split; [apply grows_refl|]. split; [done|].
    split; [apply adds_refl|]. intros _ f i Hf. by apply elem_of_nil in Hf.
  - cbn [for_]. unfold bind at 1.
    destruct (bind _ _ w) as [[[]|e] w1] eqn:Hstep.
    + assert (grows w w1 ∧ (good w → good w1) ∧
              adds (λ q n, ∃ i, q = canon (w_cwd w) (path.join target x) ∧
                                n = File i) w w1 ∧
              ∀ i, ino_at w (path.join input_dir x) = Some i →
                   ino_at w1 (path.join target x) = Some i) as (Hg & Hgd & Ha & Hx).
      { unfold bind, os.path_isfile in Hstep.
        destruct (isfile w (path.join input_dir x)) eqn:Hf.
        - split; [by eapply os_link_grows|]. split; [by eapply os_link_good|].
          split.
          + eapply adds_weaken; [|by eapply os_link_adds].
            intros q n [-> [i ->]]. eauto.
          + intros i Hi. destruct (os_link_ino _ _ _ _ Hstep) as (j & Hj & Hd).
            congruence.
        - injection Hstep as <-. split; [apply grows_refl|]. split; [done|].
          split; [apply adds_refl|]. intros i Hi.
          assert (isfile w (path.join input_dir x) = true) as Ht
            by (apply isfile_ino_at; eauto).
          congruence. }
      intros (Hg' & Hgd' & Ha' & Hl')%IH.
      split; [by eapply grows_trans|]. split; [by auto|]. split.
      * eapply adds_trans.
        -- eapply adds_weaken; [|exact Ha]. intros q n (i & -> & ->).
           exists x, i. split; [apply list_elem_of_here|done].
        -- eapply adds_weaken; [|exact Ha']. intros q n (f & i & Hf & -> & ->).
           exists f, i. split; [by apply list_elem_of_further|].
           by rewrite (grows_cwd _ _ Hg).
      * intros -> f i [->|Hf]%elem_of_cons Hi.
        -- eapply ino_at_mono; [exact Hg'|]. by apply Hx.
        -- apply Hl'; [done..|]. by eapply ino_at_mono.
    + intros [= <- <-].
      assert (grows w w1 ∧ (good w → good w1) ∧
              adds (λ q n, ∃ i, q = canon (w_cwd w) (path.join target x) ∧
                                n = File i) w w1) as (Hg & Hgd & Ha).
      { unfold bind, os.path_isfile in Hstep.
        destruct (isfile w (path.join input_dir x)) eqn:Hf.
        - split; [by eapply os_link_grows|]. split; [by eapply os_link_good|].
          eapply adds_weaken; [|by eapply os_link_adds].
          intros q n [-> [i ->]]. eauto.
        - discriminate. }
      split; [done|]. split; [done|]. split; [|done].
      eapply adds_weaken; [|exact Ha]. intros q n (i & -> & ->).
      exists x, i. split; [apply list_elem_of_here|done].
Qed.

Lemma link_docs_loop target docs w r w' :
  for_ docs (λ doc_file_path,
    os.link doc_file_path
      (path.join target (path.basename doc_file_path))) w = (r, w') →
  grows w w' ∧ (good w → good w') ∧
  adds (λ q n, ∃ d i, d ∈ docs ∧
         q = canon (w_cwd w) (path.join target (path.basename d)) ∧ n = File i)
       w w' ∧
  (r = Ok tt →
   ∀ d, d ∈ docs →
        ∃ i, ino_at w' d = Some i ∧
             ino_at w' (path.join target (path.basename d)) = Some i).
Proof.
  revert w. induction docs as [|x docs IH]; intros w.
  - intros [= <- <-]. split; [apply grows_refl|]. split; [done|].
    split; [apply adds_refl|]. intros _ d Hd. by apply elem_of_nil in Hd.
  - cbn [for_]. unfold bind at 1.
    destruct (os.link _ _ w) as [[[]|e] w1] eqn:Hstep.
    + pose proof (os_link_grows _ _ _ _ _ Hstep) as Hg.
      pose proof (os_link_adds _ _ _ _ _ Hstep) as Ha.
      destruct (os_link_ino _ _ _ _ Hstep) as (j & Hj & Hd).
      intros (Hg' & Hgd' & Ha' & Hl')%IH.
      split; [by eapply grows_trans|].
      split; [by eauto using os_link_good|]. split.
      * eapply adds_trans.
        -- eapply adds_weaken; [|exact Ha]. intros q n (-> & i & ->).
           exists x, i. split; [apply list_elem_of_here|done].
        -- eapply adds_weaken; [|exact Ha']. intros q n (f & i & Hf & -> & ->).
           exists f, i. split; [by apply list_elem_of_further|].
           by rewrite (grows_cwd _ _ Hg).
      * intros -> d [->|Hin]%elem_of_cons; [|by apply Hl'].
        exists j. split; eapply ino_at_mono; eauto.
        eapply ino_at_mono; [exact Hg|done].
    + intros [= <- <-].
      split; [by eapply os_link_grows|]. split; [by eapply os_link_good|].
      split; [|done].
      eapply adds_weaken; [|by eapply os_link_adds]. intros q n (-> & i & ->).
      exists x, i. split; [apply list_elem_of_here|done].
Qed.

(** ** Reading a builder step by step *)

Ltac wsimpl :=
  cbn [w_fs w_cwd w_tmpdir w_names w_log w_procs add_log set_log set_fs
       set_tree set_names add_proc tree data next_ino inv_fs inv_cmd inv_cwd]
    in *.

(** One statement of a builder that returned. *)
Ltac next_step H a w1 H1 :=
  apply bind_Ok_inv in H as (a & w1 & H1 & H).

(** A log statement: the world gets a record and is otherwise the same. *)
Ltac log_step H :=
  let u := fresh "u" in
  let w0 := fresh "w" in
  let E := fresh "E" in
  apply bind_Ok_inv in H as (u & w0 & E & H);
  first [ unfold logging.info in E | unfold logging.debug in E ];
  injection E as _ <-; try clear u.

Lemma grows_log w r : grows w (add_log r w).
Proof. by apply grows_same. Qed.

Lemma good_log w r : good w → good (add_log r w).
Proof. by apply good_same. Qed.

Lemma children_mono t t' q f :
  t ⊆ t' → f ∈ children t q → f ∈ children t' q.
Proof.
  intros Hsub. rewrite !elem_of_children. intros [n Hn].
  exists n. by eapply lookup_weaken.
Qed.

Lemma lookup_grows_None w w' q :
  grows w w' → tree (w_fs w') !! q = None → tree (w_fs w) !! q = None.
Proof.
  intros [Hsub _ _ _ _ _] Hq.
  destruct (tree (w_fs w) !! q) as [n|] eqn:Hn; [|done].
  by rewrite (lookup_weaken _ _ _ _ Hn Hsub) in Hq.
Qed.

(** The names [os.listdir] gave at the start are among those it gives
    later. *)
Lemma listdir_later w w' p names names' f :
  grows w w' →
  os.listdir p w = (Ok names, w) →
  os.listdir p w' = (Ok names', w') →
  f ∈ names → f ∈ names'.
Proof.
  intros Hg [_ H]%listdir_inv [_ H']%listdir_inv.
  destruct (H _ eq_refl) as (_ & _ & ->).
  destruct (H' _ eq_refl) as (_ & _ & ->).
  rewrite (grows_cwd _ _ Hg). apply children_mono, Hg.
Qed.

Lemma mkdtemp_inv w T w' :
  tempfile.mkdtemp w = (Ok T, w') →
  T ≠ EmptyString ∧
  tree (w_fs w) !! canon (w_cwd w) T = None ∧
  isdir w' T = true ∧ grows w w'.
Proof.
  intros H. pose proof (mkdtemp_grows _ _ _ H) as Hg.
  unfold tempfile.mkdtemp in H.
  destruct (mkdtemp_from_inv _ _ _ _ H) as (rest & [(e & ? & _)|(name & HT & Hm)]);
    [done|].
  injection HT as ->. split.
  { apply join_nonempty_r. by rewrite string_app_cons. }
  split; [|split; [by eapply os_mkdir_isdir|done]].
  by destruct (os_mkdir_inv _ _ _ _ Hm) as [(e & ? & _)|(_ & _ & Hq & _)].
Qed.

Lemma os_mkdir_fresh p w w' :
  os.mkdir p w = (Ok tt, w') → tree (w_fs w) !! canon (w_cwd w) p = None.
Proof.
  by intros [(e & ? & _)|(_ & _ & Hq & _)]%os_mkdir_inv.
Qed.

(** The end of every builder: the command, the log, [rmtree], the log. *)
Lemma package_and_clean cmd cmd_cwd staging m1 m2 (p0 p : string) w w' :
  (__run_command cmd cmd_cwd ;;;
   logging.info m1 ;;;
   shutil.rmtree staging ;;;
   logging.info m2 ;;;
   ret p0) w = (Ok p, w') →
  ∃ pr,
    p = p0 ∧
    tool cmd cmd_cwd (w_fs w) = Some pr ∧ (p_rc pr ≤ 0)%Z ∧
    w_procs w' = Invocation cmd cmd_cwd (w_fs w) :: w_procs w ∧
    w_cwd w' = w_cwd w ∧
    resolve (tree (p_fs pr)) (w_cwd w) staging = Ok (canon (w_cwd w) staging) ∧
    tree (p_fs pr) !! canon (w_cwd w) staging = Some Dir ∧
    tree (w_fs w') = without_subtree (canon (w_cwd w) staging) (tree (p_fs pr)) ∧
    data (w_fs w') = data (p_fs pr) ∧
    next_ino (w_fs w') = next_ino (p_fs pr).
Proof.
  intros H. next_step H u1 w1 Hrun. log_step H. next_step H u2 w2 Hrm.
  log_step H. injection H as <- <-.
  destruct (run_command_Ok _ _ _ _ _ Hrun) as (pr & Htool & Hrc & ->).
  destruct (rmtree_inv _ _ _ _ Hrm) as [(e & ? & _)|(_ & Hres & Hdir & ->)];
    [done|].
  wsimpl. exists pr. done.
Qed.

(** ** The tarball builder, read to its end *)

Lemma create_tgz_package_built input_dir version revision w p w' :
  good w →
  create_tgz_package input_dir version revision w = (Ok p, w') →
  ∃ temp_dir before pr,
    let staging := path.join temp_dir (tgz_dirname version revision) in
    p = path.join temp_dir (tgz_name version revision) ∧
    built w input_dir temp_dir staging staging staging
      (tar_command temp_dir version revision) (Some temp_dir) before pr w' ∧
    (∀ q, canon (w_cwd w) staging `suffix_of` q →
          q ≠ canon (w_cwd w) staging →
          tree (w_fs before) !! q ≠ Some Dir).
Proof.
  intros Hgood H. unfold create_tgz_package in H.
  next_step H T w1 Htemp. cbv zeta in H.
  next_step H u2 w2 Hmk. destruct u2.
  log_step H. log_step H.
  next_step H filenames w3 Hlist.
  next_step H u4 w4 Hfiles. destruct u4.
  log_step H.
  next_step H u5 w5 Hdocs. destruct u5.
  log_step H.
  apply package_and_clean in H
    as (pr & -> & Htool & Hrc & Hprocs & Hcwd & Hres & Hdir & Htree & Hdata & Hnext).
  destruct (mkdtemp_inv _ _ _ Htemp) as (HT & HTfresh & HTdir & Hg1).
  pose proof (mkdtemp_good _ _ _ Htemp Hgood) as Hgood1.
  pose proof (os_mkdir_grows _ _ _ _ Hmk) as Hg2.
  pose proof (os_mkdir_good _ _ _ _ Hmk Hgood1) as Hgood2.
  pose proof (os_mkdir_fresh _ _ _ Hmk) as Hsfresh.
  pose proof (os_mkdir_isdir _ _ _ Hmk) as Hsdir.
  pose proof (os_mkdir_adds _ _ _ _ Hmk) as Ha2.
  pose proof (listdir_inv _ _ _ _ Hlist) as [-> _].
  destruct (link_files_loop _ _ _ _ _ _ Hfiles) as (Hg4 & Hgood4 & Ha4 & Hl4).
  destruct (link_docs_loop _ _ _ _ _ Hdocs) as (Hg5 & Hgood5 & Ha5 & Hl5).
  set (wa := add_log _ (add_log _ w2)) in *.
  set (wb := add_log _ w4) in *.
  set (before := add_log _ w5) in *.
  assert (grows w2 wa) as Hga by (by apply grows_same).
  assert (grows w4 wb) as Hgb by apply grows_log.
  assert (grows w5 before) as Hgc by apply grows_log.
  assert (grows w wa) as Hwa by eauto using grows_trans.
  assert (grows w before) as Hwbefore by eauto using grows_trans.
  assert (w_cwd w1 = w_cwd w) as Hc1 by apply Hg1.
  assert (w_cwd before = w_cwd w) as Hcb by apply Hwbefore.
  rewrite Hcb in *. rewrite Hc1 in *.
  exists T, before, pr. split; [done|]. split.
  - split; try done.
    + apply (lookup_grows_None w w1); [done|exact Hsfresh].
    + eapply isdir_mono; [|exact Hsdir]. eauto using grows_trans.
    + apply good_log, Hgood5, good_log, Hgood4. by apply (good_same w2).
    + intros names f i Hnames Hf Hi.
      eapply ino_at_mono; [eapply grows_trans; [exact Hgb|];
                           eapply grows_trans; [exact Hg5|exact Hgc]|].
      apply Hl4; [done| |by eapply ino_at_mono].
      exact (listdir_later w wa input_dir names filenames f Hwa Hnames Hlist Hf).
    + intros d Hd. destruct (Hl5 eq_refl d Hd) as (i & Hi1 & Hi2).
      exists i. split; (eapply ino_at_mono; [exact Hgc|done]).
    + rewrite Hprocs. f_equal. apply Hwbefore.
  - intros q Hsuf Hne Hq. unfold tgz_dirname in *.
    apply Ha5 in Hq as [Hq|(d & i & _ & _ & ?)]; [|done].
    apply Ha4 in Hq as [Hq|(f & i & _ & _ & ?)]; [|done].
    apply Ha2 in Hq as [Hq|[? _]]; [|done].
    destruct (wf_tree_ancestor _ _ _ (good_tree _ Hgood1) Hsuf) as [n Hn];
      [eauto|]. congruence.
Qed.

(** ** The RPM builder, read to its end *)

Lemma create_rpm_package_built input_dir version revision w p w' :
  good w →
  create_rpm_package input_dir version revision w = (Ok p, w') →
  ∃ temp_dir before pr,
    p = path.join temp_dir (rpm_name version revision) ∧
    built w input_dir temp_dir (path.join temp_dir "rpm")
      (rpm_lib_dir temp_dir) (rpm_doc_dir temp_dir version)
      (rpm_fpm_command temp_dir version revision) None before pr w'.
Proof.
  intros Hgood H. unfold create_rpm_package in H.
  next_step H T w1 Htemp. cbv zeta in H.
  next_step H u2 w2 Hmk. destruct u2.
  next_step H u3 w3 Hlib.
  next_step H u4 w4 Hdoc.
  log_step H.
  next_step H filenames w5 Hlist.
  next_step H u6 w6 Hfiles. destruct u6.
  log_step H.
  next_step H u7 w7 Hdocs. destruct u7.
  log_step H. log_step H.
  apply package_and_clean in H
    as (pr & -> & Htool & Hrc & Hprocs & Hcwd & Hres & Hdir & Htree & Hdata & Hnext).
  destruct (mkdtemp_inv _ _ _ Htemp) as (HT & HTfresh & HTdir & Hg1).
  pose proof (mkdtemp_good _ _ _ Htemp Hgood) as Hgood1.
  pose proof (os_mkdir_grows _ _ _ _ Hmk) as Hg2.
  pose proof (os_mkdir_good _ _ _ _ Hmk Hgood1) as Hgood2.
  pose proof (os_mkdir_fresh _ _ _ Hmk) as Hsfresh.
  pose proof (os_mkdir_isdir _ _ _ Hmk) as Hsdir.
  destruct (mkdir_p_inv _ _ _ _ Hlib) as (Hg3 & Hgood3 & _ & _).
  destruct (mkdir_p_inv _ _ _ _ Hdoc) as (Hg4 & Hgood4 & _ & _).
  pose proof (listdir_inv _ _ _ _ Hlist) as [-> _].
  destruct (link_files_loop _ _ _ _ _ _ Hfiles) as (Hg6 & Hgood6 & _ & Hl6).
  destruct (link_docs_loop _ _ _ _ _ Hdocs) as (Hg7 & Hgood7 & _ & Hl7).
  set (wa := add_log _ w4) in *.
  set (wb := add_log _ w6) in *.
  set (before := add_log _ (add_log _ w7)) in *.
  assert (grows w4 wa) as Hga by apply grows_log.
  assert (grows w6 wb) as Hgb by apply grows_log.
  assert (grows w7 before) as Hgc by (by apply grows_same).
  assert (grows w w2) as Hw2 by eauto using grows_trans.
  assert (grows w wa) as Hwa by eauto using grows_trans.
  assert (grows w2 before) as H2before by eauto 10 using grows_trans.
  assert (grows w before) as Hwbefore by eauto using grows_trans.
  assert (w_cwd w1 = w_cwd w) as Hc1 by apply Hg1.
  assert (w_cwd before = w_cwd w) as Hcb by apply Hwbefore.
  rewrite Hcb in *. rewrite Hc1 in *.
  exists T, before, pr. split; [done|].
  split; try done.
  - apply (lookup_grows_None w w1); [done|exact Hsfresh].
  - eapply isdir_mono; [exact H2before|exact Hsdir].
  - apply (good_same w7); [done..|].
    apply Hgood7, good_log, Hgood6, good_log. auto.
  - intros names f i Hnames Hf Hi.
    eapply ino_at_mono; [eapply grows_trans; [exact Hgb|];
                         eapply grows_trans; [exact Hg7|exact Hgc]|].
    apply Hl6; [done| |by eapply ino_at_mono].
    exact (listdir_later w wa input_dir names filenames f Hwa Hnames Hlist Hf).
  - intros d Hd. destruct (Hl7 eq_refl d Hd) as (i & Hi1 & Hi2).
    exists i. split; (eapply ino_at_mono; [exact Hgc|done]).
  - rewrite Hprocs. f_equal. apply Hwbefore.
Qed.

(** ** Where [pathlib] makes directories *)

Lemma parts_ok p :
  Forall (λ c, count_sep is_slash c = 0%nat ∧ c ≠ EmptyString) (pathlib.parts p).
Proof.
  apply Forall_forall. intros c [Hc Hin]%list_elem_of_filter. split.
  - pose proof (split_on_fields is_slash p) as Hall.
    rewrite Forall_forall in Hall. by apply Hall.
  - intros ->. apply Hc. by left.
Qed.

Lemma part_relative c :
  count_sep is_slash c = 0%nat → starts_with_slash c = false.
Proof. destruct c as [|x c]; [done|]. simpl. by destruct (is_slash x). Qed.

Lemma to_str_spec absolute rp c :
  Forall (λ c, count_sep is_slash c = 0%nat ∧ c ≠ EmptyString) (c :: rp) →
  pathlib.to_str absolute (c :: rp) ≠ EmptyString ∧
  starts_with_slash (pathlib.to_str absolute (c :: rp)) = absolute ∧
  components (pathlib.to_str absolute (c :: rp)) =
    (if absolute then [EmptyString] else []) ++ rev (c :: rp).
Proof.
  revert c. induction rp as [|a rp IH]; intros c Hok.
  - inversion Hok as [|? ? [Hc Hne] _]; subst. cbn [pathlib.to_str].
    destruct absolute.
    + change ("/" +:+ c) with (String "/" c). split; [done|]. split; [done|].
      unfold components. simpl. by rewrite (split_on_no_sep _ _ Hc).
    + split; [done|]. split; [by apply part_relative|].
      unfold components. by rewrite (split_on_no_sep _ _ Hc).
  - inversion Hok as [|? ? [Hc Hne] Hok']; subst.
    destruct (IH a Hok') as (Hn & Hs & Hcs).
    change (pathlib.to_str absolute (c :: a :: rp))
      with (pathlib.to_str absolute (a :: rp) +:+ String "/" c).
    split; [|split].
    + destruct (pathlib.to_str absolute (a :: rp)); done.
    + by rewrite starts_with_slash_app.
    + unfold components in *. rewrite split_on_app_sep by done.
      rewrite Hcs, (split_on_no_sep _ _ Hc).
      change (rev (c :: a :: rp)) with (rev (a :: rp) ++ [c]).
      by rewrite app_assoc.
Qed.

Lemma to_str_canon absolute rp cwd :
  Forall (λ c, count_sep is_slash c = 0%nat ∧ c ≠ EmptyString) rp →
  canon cwd (pathlib.to_str absolute rp) =
  fold_left step (rev rp) (if absolute then [] else cwd).
Proof.
  destruct rp as [|c rp]; [by destruct absolute|].
  intros (_ & Hs & Hcs)%(to_str_spec absolute).
  unfold canon, start. rewrite Hs, Hcs.
  destruct absolute; [|done]. by rewrite fold_left_app.
Qed.

Lemma fold_step_plain l a :
  Forall (λ c, plain c = true) l → fold_left step (rev l) a = l ++ a.
Proof.
  induction l as [|c l IH]; intros Hl; [done|].
  inversion Hl; subst. cbn [rev]. rewrite fold_left_app, IH by done.
  simpl. by apply step_plain.
Qed.

Lemma walk_start t l c cs q : walk t l (c :: cs) = Ok q → t !! l = Some Dir.
Proof. simpl. by destruct (t !! l) as [[|i]|]. Qed.

Lemma walk_filter t l cs q :
  walk t l cs = Ok q →
  walk t l (filter (λ c, ¬ (c = EmptyString ∨ c = ".")) cs) = Ok q.
Proof.
  revert l. induction cs as [|c cs IH]; intros l; [done|]. simpl.
  destruct (t !! l) as [[|i]|] eqn:Hl; try discriminate.
  intros H. destruct (decide (c = EmptyString ∨ c = ".")) as [Hc|Hc].
  - rewrite filter_cons_False by auto. apply IH.
    unfold step in H. by rewrite decide_True in H.
  - rewrite filter_cons_True by done. simpl. rewrite Hl. by apply IH.
Qed.

Lemma drop_trailing_last l c :
  c ≠ EmptyString → drop_trailing_empty (l ++ [c]) = l ++ [c].
Proof.
  intros Hc. induction l as [|x l IH]; simpl.
  - by rewrite decide_False.
  - rewrite IH. by destruct (l ++ [c]) eqn:E; [destruct l|].
Qed.

(** The path [pathlib] keeps for an existing directory resolves to it. *)
Lemma resolve_dir_to_str t cwd p q :
  resolve t cwd p = Ok q →
  pathlib.parts p ≠ [] →
  resolve_dir t cwd
    (pathlib.to_str (starts_with_slash p) (rev (pathlib.parts p))) = Ok q.
Proof.
  unfold resolve. destruct (String.eqb p EmptyString); [done|].
  intros Hw%walk_filter Hne. fold (pathlib.parts p) in Hw.
  pose proof (parts_ok p) as Hok.
  destruct (rev (pathlib.parts p)) as [|c rp] eqn:Hrev.
  { exfalso. apply Hne. by rewrite <- (rev_involutive (pathlib.parts p)), Hrev. }
  assert (Forall (λ c, count_sep is_slash c = 0%nat ∧ c ≠ EmptyString) (c :: rp))
    as Hok' by (rewrite <- Hrev; by apply Forall_rev).
  destruct (to_str_spec (starts_with_slash p) rp c Hok') as (Hn & Hs & Hcs).
  unfold resolve_dir. apply string_eqb_empty in Hn. rewrite Hn.
  unfold start in *. rewrite Hs, Hcs, <- Hrev, rev_involutive.
  assert (pathlib.parts p = rev rp ++ [c]) as Hparts.
  { by rewrite <- (rev_involutive (pathlib.parts p)), Hrev. }
  inversion Hok' as [|? ? [_ Hc] _]; subst.
  rewrite Hparts, app_assoc, drop_trailing_last, <- app_assoc, <- Hparts by done.
  destruct (starts_with_slash p); [|done]. simpl.
  destruct (pathlib.parts p) as [|x ps]; [done|].
  rewrite (walk_start _ _ _ _ _ Hw), step_noop. done.
Qed.

Lemma parts_join a b :
  starts_with_slash b = false → a ≠ EmptyString →
  pathlib.parts (path.join a b) = pathlib.parts a ++ pathlib.parts b.
Proof.
  intros Hb Ha. unfold pathlib.parts.
  destruct (components_join a b Hb Ha) as (pre & -> & [->| <-]).
  - by rewrite filter_app.
  - rewrite !filter_app. rewrite (filter_cons_False _ EmptyString) by auto.
    by rewrite filter_nil, app_nil_r.
Qed.

Lemma mkdir_parents_below absolute extra base w r w' b :
  Forall (λ c, count_sep is_slash c = 0%nat ∧ c ≠ EmptyString) (extra ++ base) →
  Forall (λ c, plain c = true) extra →
  resolve_dir (tree (w_fs w)) (w_cwd w) (pathlib.to_str absolute base) = Ok b →
  tree (w_fs w) !! b = Some Dir →
  base ≠ [] →
  pathlib.mkdir_parents absolute (extra ++ base) w = (r, w') →
  adds (λ q n, b `suffix_of` q) w w'.
Proof.
  intros Hok Hplain Hres Hb Hbase. revert r w'.
  assert (∀ ex, Forall (λ c, plain c = true) ex →
                Forall (λ c, count_sep is_slash c = 0%nat ∧ c ≠ EmptyString)
                       (ex ++ base) →
                canon (w_cwd w) (pathlib.to_str absolute (ex ++ base)) = ex ++ b)
    as Hloc.
  { intros ex Hex Hexok. rewrite to_str_canon by done.
    rewrite rev_app_distr, fold_left_app, fold_step_plain by done.
    f_equal. rewrite <- to_str_canon by (by apply Forall_app in Hexok as [_ ?]).
    symmetry. by eapply resolve_dir_canon. }
  induction extra as [|c ex IH]; intros r w'.
  - destruct base as [|x base']; [done|]. cbn [app pathlib.mkdir_parents].
    assert (os.mkdir (pathlib.to_str absolute (x :: base')) w =
            (Err FileExistsError, w)) as ->.
    { unfold os.mkdir. by rewrite Hres, Hb. }
    destruct (isdir w _); intros [= <- <-]; apply adds_refl.
  - inversion Hplain as [|? ? Hc Hex]; subst.
    assert (Forall (λ c, count_sep is_slash c = 0%nat ∧ c ≠ EmptyString)
                   (ex ++ base)) as Hok' by (by inversion Hok).
    cbn [app pathlib.mkdir_parents].
    pose proof (Hloc (c :: ex) Hplain Hok) as Hself. cbn [app] in Hself.
    set (self := pathlib.to_str absolute (c :: ex ++ base)) in *.
    destruct (os.mkdir self w) as [[[]|e] w1] eqn:Hm.
    + intros [= <- <-]. eapply adds_weaken; [|by eapply os_mkdir_adds].
      intros q n [-> _]. rewrite Hself. by exists (c :: ex).
    + destruct (os_mkdir_inv _ _ _ _ Hm) as [(e' & _ & ->)|[? _]]; [|done].
      assert (∀ e0, (if isdir w self then (Ok tt, w) else (Err e0, w)) = (r, w') →
                    adds (λ q n, b `suffix_of` q) w w') as Hif.
      { intros e0. destruct (isdir w self); intros [= <- <-]; apply adds_refl. }
      destruct e; try apply Hif.
      unfold bind.
      destruct (pathlib.mkdir_parents absolute (ex ++ base) w)
        as [[[]|e] w2] eqn:Hp.
      * intros (Hg2 & _ & Ha2 & _)%mkdir_exist_ok_inv.
        destruct (mkdir_parents_inv _ _ _ _ _ Hp) as (Hg1 & _).
        eapply adds_trans; [by eapply IH|].
        eapply adds_weaken; [|exact Ha2].
        intros q n [-> _]. rewrite (grows_cwd _ _ Hg1), Hself.
        by exists (c :: ex).
      * intros [= <- <-]. by eapply IH.
Qed.

(** ** Writing a new file *)

Lemma write_file_fresh p content w w' :
  write_file p content w = (Ok tt, w') →
  tree (w_fs w) !! canon (w_cwd w) p = None →
  grows w w' ∧ (good w → good w') ∧
  adds (λ q n, q = canon (w_cwd w) p) w w'.
Proof.
  intros [(e & ? & _)|(_ & _ & [(i & Hi & _)|(Hq & Hc & ->)])]%write_file_inv Hnone;
    [done|congruence|].
  split; [|split].
  - split; simpl; try done; [by apply insert_subseteq| |lia].
    intros i Hi. apply lookup_insert_ne. lia.
  - intros [Ht Hino Hcwd]. split; simpl.
    + apply wf_tree_insert; auto. by apply canon_plain.
    + intros q i. simpl. rewrite lookup_insert. case_decide.
      * intros [= <-]. lia.
      * intros ?%Hino. lia.
    + rewrite lookup_insert_ne; [done|]. intros Heq. rewrite Heq in Hq.
      congruence.
  - intros q n. simpl. rewrite lookup_insert. case_decide; [by right|by left].
Qed.

Lemma mkdtemp_adds w T w' :
  tempfile.mkdtemp w = (Ok T, w') →
  adds (λ q n, q = canon (w_cwd w) T) w w'.
Proof.
  unfold tempfile.mkdtemp.
  intros (rest & [(e & ? & _)|(name & [= ->] & Hm)])%mkdtemp_from_inv; [done|].
  eapply adds_weaken; [|eapply adds_trans; [|by eapply os_mkdir_adds]].
  - by intros q n [-> _].
  - by apply adds_same.
Qed.

Lemma suffix_cons_same {A} (c c' : A) (l : list A) :
  (c :: l) `suffix_of` (c' :: l) → c = c'.
Proof.
  intros [[= ->]|H%suffix_length]%suffix_cons_inv; [done|]. simpl in H. lia.
Qed.

(** ** Everything the builders stage lies below the staging directory *)

Lemma canon_join_plains cwd a sub extra :
  a ≠ EmptyString → starts_with_slash sub = false →
  components sub = rev extra → Forall (λ c, plain c = true) extra →
  canon cwd (path.join a sub) = extra ++ canon cwd a.
Proof.
  intros Ha Hsub Hcs Hplain. rewrite canon_join, Hcs by done.
  by apply fold_step_plain.
Qed.

Lemma plain_part c :
  plain c = true → count_sep is_slash c = 0%nat ∧ c ≠ EmptyString.
Proof. intros (? & ? & _)%plain_inv. done. Qed.

Lemma mkdir_p_below staging sub extra w r w' :
  isdir w staging = true → staging ≠ EmptyString →
  pathlib.parts staging ≠ [] →
  starts_with_slash sub = false →
  pathlib.parts sub = rev extra → Forall (λ c, plain c = true) extra →
  __mkdir_p (path.join staging sub) w = (r, w') →
  adds (λ q n, canon (w_cwd w) staging `suffix_of` q) w w'.
Proof.
  intros [Hres Hdir]%isdir_lookup Hne Hparts Hsub Hextra Hplain.
  unfold __mkdir_p, pathlib.mkdir_p.
  rewrite parts_join, starts_with_slash_join, Hextra by done.
  rewrite rev_app_distr, rev_involutive.
  apply mkdir_parents_below; try done.
  - apply Forall_app. split.
    + eapply Forall_impl; [exact Hplain|]. intros c. apply plain_part.
    + apply Forall_rev, parts_ok.
  - by apply resolve_dir_to_str.
  - intros Hnil. apply Hparts.
    by rewrite <- (rev_involutive (pathlib.parts staging)), Hnil.
Qed.

Lemma listed_plain w p names f :
  good w → os.listdir p w = (Ok names, w) → f ∈ names → plain f = true.
Proof.
  intros [[_ Hwf] _ _] [_ H]%listdir_inv. destruct (H _ eq_refl) as (_ & _ & ->).
  intros [n Hn]%elem_of_children. by destruct (Hwf _ _ _ Hn).
Qed.

Lemma link_files_below input_dir target names w r w' s :
  (∀ f, f ∈ names → plain f = true) →
  target ≠ EmptyString →
  s `suffix_of` canon (w_cwd w) target →
  for_ names (λ filename,
    let* is_file := os.path_isfile (path.join input_dir filename) in
    if is_file
    then os.link (path.join input_dir filename) (path.join target filename)
    else ret tt) w = (r, w') →
  adds (λ q n, s `suffix_of` q) w w'.
Proof.
  intros Hplain Hne Hs (_ & _ & Ha & _)%link_files_loop.
  eapply adds_weaken; [|exact Ha]. intros q n (f & i & Hf & -> & _).
  rewrite canon_join_plain by auto. by apply suffix_cons_r.
Qed.

Lemma PATH_TO_ROOT_nonempty : PATH_TO_ROOT ≠ EmptyString.
Proof. by apply join_nonempty_r. Qed.

Lemma docs_basename_plain d :
  d ∈ MECAB_IPADIC_NEOLOGD_MISC_DOCS → plain (path.basename d) = true.
Proof.
  unfold MECAB_IPADIC_NEOLOGD_MISC_DOCS.
  rewrite !elem_of_cons, elem_of_nil.
  intros [->|[->|[->|[->|[]]]]];
    by rewrite basename_join by (done || apply PATH_TO_ROOT_nonempty).
Qed.

Lemma link_docs_below target w r w' s :
  target ≠ EmptyString →
  s `suffix_of` canon (w_cwd w) target →
  for_ MECAB_IPADIC_NEOLOGD_MISC_DOCS (λ doc_file_path,
    os.link doc_file_path
      (path.join target (path.basename doc_file_path))) w = (r, w') →
  adds (λ q n, s `suffix_of` q) w w'.
Proof.
  intros Hne Hs (_ & _ & Ha & _)%link_docs_loop.
  eapply adds_weaken; [|exact Ha]. intros q n (d & i & Hd & -> & _).
  rewrite canon_join_plain by auto using docs_basename_plain.
  by apply suffix_cons_r.
Qed.

(** ** The Debian builder, read to its end *)

Lemma create_deb_package_built input_dir version revision w p w' :
  good w →
  create_deb_package input_dir version revision w = (Ok p, w') →
  ∃ temp_dir before pr,
    p = path.join temp_dir (deb_name version revision) ∧
    built w input_dir temp_dir (path.join temp_dir "deb")
      (deb_lib_dir temp_dir) (deb_doc_dir temp_dir)
      (deb_fpm_command temp_dir version revision) None before pr w'.
Proof.
  intros Hgood H. unfold create_deb_package in H.
  next_step H T w1 Htemp. cbv zeta in H.
  next_step H u2 w2 Hmk. destruct u2.
  next_step H u3 w3 Hlib.
  next_step H u4 w4 Hdoc.
  log_step H.
  next_step H filenames w5 Hlist.
  next_step H u6 w6 Hfiles. destruct u6.
  log_step H.
  next_step H u7 w7 Hdocs. destruct u7.
  next_step H u8 w8 Hwr1. destruct u8.
  next_step H u9 w9 Hwr2. destruct u9.
  log_step H. log_step H.
  apply package_and_clean in H
    as (pr & -> & Htool & Hrc & Hprocs & Hcwd & Hres & Hdir & Htree & Hdata & Hnext).
  destruct (mkdtemp_inv _ _ _ Htemp) as (HT & HTfresh & HTdir & Hg1).
  pose proof (mkdtemp_good _ _ _ Htemp Hgood) as Hgood1.
  pose proof (mkdtemp_adds _ _ _ Htemp) as Ha1.
  pose proof (os_mkdir_grows _ _ _ _ Hmk) as Hg2.
  pose proof (os_mkdir_good _ _ _ _ Hmk Hgood1) as Hgood2.
  pose proof (os_mkdir_fresh _ _ _ Hmk) as Hsfresh.
  pose proof (os_mkdir_isdir _ _ _ Hmk) as Hsdir.
  pose proof (os_mkdir_adds _ _ _ _ Hmk) as Ha2.
  destruct (mkdir_p_inv _ _ _ _ Hlib) as (Hg3 & Hgood3 & _ & _).
  destruct (mkdir_p_inv _ _ _ _ Hdoc) as (Hg4 & Hgood4 & _ & _).
  pose proof (listdir_inv _ _ _ _ Hlist) as [-> _].
  destruct (link_files_loop _ _ _ _ _ _ Hfiles) as (Hg6 & Hgood6 & _ & Hl6).
  destruct (link_docs_loop _ _ _ _ _ Hdocs) as (Hg7 & Hgood7 & _ & Hl7).
  set (staging := path.join T "deb") in *.
  set (wa := add_log _ w4) in *.
  set (wb := add_log _ w6) in *.
  assert (grows w4 wa) as Hga by apply grows_log.
  assert (grows w6 wb) as Hgb by apply grows_log.
  assert (grows w w2) as Hw2 by eauto using grows_trans.
  assert (grows w2 w3) as H23 by done.
  assert (grows w2 w4) as H24 by eauto using grows_trans.
  assert (grows w2 wa) as H2a by eauto using grows_trans.
  assert (grows w2 wb) as H2b by eauto using grows_trans.
  assert (grows w2 w7) as H27 by eauto using grows_trans.
  assert (grows w wa) as Hwa by eauto using grows_trans.
  assert (grows w w7) as Hw7 by eauto using grows_trans.
  assert (good w7) as Hgood7'.
  { apply Hgood7, good_log, Hgood6, good_log. auto. }
  assert (w_cwd w1 = w_cwd w) as Hc1 by apply Hg1.
  assert (w_cwd w2 = w_cwd w) as Hc2 by apply Hw2.
  assert (w_cwd w3 = w_cwd w) as Hc3 by (rewrite <- Hc2; apply H23).
  assert (w_cwd wa = w_cwd w) as Hca by apply Hwa.
  assert (w_cwd wb = w_cwd w) as Hcb by (rewrite <- Hc2; apply H2b).
  assert (w_cwd w7 = w_cwd w) as Hc7 by apply Hw7.
  assert (staging ≠ EmptyString) as Hsne by (by apply join_nonempty).
  assert (canon (w_cwd w) staging = "deb" :: canon (w_cwd w) T) as Hs
    by (by apply canon_join_plain).
  assert (pathlib.parts staging ≠ []) as Hsparts.
  { unfold staging. rewrite parts_join by done.
    intros [_ ?]%app_eq_nil. done. }
  (* everything staged lies below the staging directory *)
  assert (adds (λ q n, canon (w_cwd w) staging `suffix_of` q) w2 w7) as Hbelow.
  { eapply adds_trans; [|eapply adds_trans; [|eapply adds_trans]].
    - rewrite <- Hc2.
      eapply (mkdir_p_below staging "var/lib/mecab/dic/ipadic-neologd"
                ["ipadic-neologd"; "dic"; "mecab"; "lib"; "var"]);
        [done..|by repeat constructor|exact Hlib].
    - rewrite <- Hc3.
      eapply (mkdir_p_below staging "usr/share/doc/mecab-ipadic-neologd"
                ["mecab-ipadic-neologd"; "doc"; "share"; "usr"]);
        [by eapply isdir_mono|done..|by repeat constructor|exact Hdoc].
    - eapply adds_trans; [by apply (adds_same _ w4 wa)|].
      eapply link_files_below; [| | |exact Hfiles].
      + intros f Hf. eapply (listed_plain wa); [|exact Hlist|done].
        apply good_log. auto.
      + by apply join_nonempty.
      + rewrite Hca.
        rewrite (canon_join_plains _ _ _
                   ["ipadic-neologd"; "dic"; "mecab"; "lib"; "var"])
          by (done || by repeat constructor).
        by apply suffix_app_r.
    - eapply adds_trans; [by apply (adds_same _ w6 wb)|].
      eapply link_docs_below; [| |exact Hdocs].
      + by apply join_nonempty.
      + rewrite Hcb.
        rewrite (canon_join_plains _ _ _
                   ["mecab-ipadic-neologd"; "doc"; "share"; "usr"])
          by (done || by repeat constructor).
        by apply suffix_app_r. }
  (* so the temporary directory has no other entry *)
  assert (∀ c, c ≠ "deb" →
               tree (w_fs w7) !! (c :: canon (w_cwd w) T) = None) as Hfree.
  { intros c Hc. destruct (tree (w_fs w7) !! _) as [n|] eqn:Hn; [|done].
    exfalso. apply Hbelow in Hn as [Hn|Hn].
    - apply Ha2 in Hn as [Hn|[Hn _]].
      + apply Ha1 in Hn as [Hn|Hn].
        * destruct (wf_tree_ancestor _ (canon (w_cwd w) T) _
                      (good_tree _ Hgood) (suffix_cons_r _ _ c (reflexivity _)))
            as [n' Hn']; [eauto|]. congruence.
        * symmetry in Hn. by apply cons_neq in Hn.
      + rewrite Hc1 in Hn. fold staging in Hn. rewrite Hs in Hn.
        by injection Hn.
    - rewrite Hs in Hn. apply suffix_cons_same in Hn. done. }
  assert (tree (w_fs w7) !! canon (w_cwd w7) (path.join T "after-install") = None)
    as Hfresh1.
  { rewrite Hc7, canon_join_plain by done. by apply Hfree. }
  destruct (write_file_fresh _ _ _ _ Hwr1 Hfresh1) as (Hg8 & Hgood8 & Ha8).
  assert (w_cwd w8 = w_cwd w) as Hc8 by (rewrite <- Hc7; apply Hg8).
  assert (tree (w_fs w8) !! canon (w_cwd w8) (path.join T "after-remove") = None)
    as Hfresh2.
  { rewrite Hc8, canon_join_plain by done.
    destruct (tree (w_fs w8) !! _) as [n|] eqn:Hn; [|done].
    exfalso. apply Ha8 in Hn as [Hn|Hn].
    - by rewrite Hfree in Hn.
    - rewrite Hc7, canon_join_plain in Hn by done. by injection Hn. }
  destruct (write_file_fresh _ _ _ _ Hwr2 Hfresh2) as (Hg9 & Hgood9 & _).
  set (before := add_log _ (add_log _ w9)) in *.
  assert (grows w9 before) as Hgc by (by apply grows_same).
  assert (grows w7 before) as H7before by eauto using grows_trans.
  assert (grows w before) as Hwbefore by eauto using grows_trans.
  assert (grows wb before) as Hbbefore by eauto using grows_trans.
  assert (w_cwd before = w_cwd w) as Hcbefore by apply Hwbefore.
  rewrite Hcbefore in *. rewrite Hc1 in *.
  exists T, before, pr. split; [done|].
  split; try done.
  - apply (lookup_grows_None w w1); [done|exact Hsfresh].
  - eapply isdir_mono; [|exact Hsdir]. eauto using grows_trans.
  - apply (good_same w9); [done..|]. auto.
  - intros names f i Hnames Hf Hi.
    eapply ino_at_mono; [exact Hbbefore|]. eapply ino_at_mono; [exact Hgb|].
    apply Hl6; [done| |by eapply ino_at_mono].
    exact (listdir_later w wa input_dir names filenames f Hwa Hnames Hlist Hf).
  - intros d Hd. destruct (Hl7 eq_refl d Hd) as (i & Hi1 & Hi2).
    exists i. split; (eapply ino_at_mono; [exact H7before|done]).
  - rewrite Hprocs. f_equal. apply Hwbefore.
Qed.

(** ** From a builder that returned to the claims *)

Lemma wf_world_good w : wf_world w = true → good w.
Proof.
  unfold wf_world, wf.
  intros [[Hroot%bool_decide_eq_true Hall]%andb_prop Hcwd%bool_decide_eq_true]%andb_prop.
  rewrite forallb_forall in Hall.
  assert (∀ q n, tree (w_fs w) !! q = Some n →
                 wf_entry (tree (w_fs w)) (next_ino (w_fs w)) (q, n) = true)
    as Hentry.
  { intros q n Hq. apply Hall, list_elem_of_In. by apply elem_of_map_to_list. }
  split; [split; [done|]| |done].
  - intros c p n [H _]%Hentry%andb_prop. simpl in H.
    apply andb_prop in H as [Hc Hp%bool_decide_eq_true]. done.
  - intros q i [_ H]%Hentry%andb_prop. simpl in H. by apply Nat.ltb_lt.
Qed.

Lemma lookup_without_subtree s t q :
  without_subtree s t !! q = if decide (s `suffix_of` q) then None else t !! q.
Proof.
  unfold without_subtree. case_decide as Hs.
  - apply map_lookup_filter_None. right. intros n _ Hn. by apply Hn.
  - destruct (t !! q) as [n|] eqn:Hq.
    + by apply map_lookup_filter_Some.
    + apply map_lookup_filter_None. by left.
Qed.

Lemma ino_at_same_fs w1 w2 p :
  w_fs w1 = w_fs w2 → w_cwd w1 = w_cwd w2 → ino_at w1 p = ino_at w2 p.
Proof. unfold ino_at, lookup_path. by intros -> ->. Qed.

Lemma isdir_same_fs w1 w2 p :
  w_fs w1 = w_fs w2 → w_cwd w1 = w_cwd w2 → isdir w1 p = isdir w2 p.
Proof. unfold isdir, lookup_path. by intros -> ->. Qed.

Section Built.

Context {w : world} {input_dir temp_dir staging files_dir docs_dir : string}
  {cmd : list string} {cmd_cwd : option string}
  {before : world} {pr : process} {w' : world}.
Hypothesis B :
  built w input_dir temp_dir staging files_dir docs_dir cmd cmd_cwd before pr w'.

Lemma built_cwd_before : w_cwd before = w_cwd w.
Proof. apply (built_grows _ _ _ _ _ _ _ _ _ _ _ B). Qed.

Lemma built_started : started w w' cmd cmd_cwd (w_fs before).
Proof. apply (built_procs _ _ _ _ _ _ _ _ _ _ _ B). Qed.

Lemma built_staged :
  staged w input_dir files_dir docs_dir
    (seen_by (Invocation cmd cmd_cwd (w_fs before)) w).
Proof.
  pose proof built_cwd_before as Hc. destruct B. split.
  - intros names f i Hn Hf Hi.
    rewrite (ino_at_same_fs _ before) by done. eauto.
  - intros d Hd. destruct (built_docs0 d Hd) as (i & H1 & H2).
    exists i. rewrite !(ino_at_same_fs (seen_by _ w) before) by done. done.
Qed.

Lemma built_staging_isdir :
  isdir (seen_by (Invocation cmd cmd_cwd (w_fs before)) w) staging = true.
Proof.
  pose proof built_cwd_before as Hc. destruct B.
  by rewrite (isdir_same_fs _ before).
Qed.

Lemma built_cleaned : cleaned w staging pr w'.
Proof.
  destruct B. split; [done|]. split; [|split; [|done]].
  - intros q Hq. rewrite built_tree0, lookup_without_subtree.
    by rewrite decide_True.
  - intros q Hq. rewrite built_tree0, lookup_without_subtree.
    by rewrite decide_False.
Qed.

Lemma built_preserved : good w → preserved w (w_fs before) pr w'.
Proof.
  intros Hgood. destruct B. split; [|split; [|split; [|done]]].
  - intros q n Hq. eapply lookup_weaken; [exact Hq|apply built_grows0].
  - apply built_grows0.
  - intros q Hq. rewrite built_tree0, lookup_without_subtree.
    rewrite decide_False; [done|]. intros Hs.
    destruct (wf_tree_ancestor _ _ _ (good_tree _ Hgood) Hs Hq) as [n Hn].
    congruence.
Qed.

(** An artifact named by a plain name in the temporary directory, next
    to a staging directory of another plain name. *)
Lemma built_artifact_kept sname aname :
  staging = path.join temp_dir sname → plain sname = true →
  plain aname = true → sname ≠ aname →
  artifact_kept w staging (path.join temp_dir aname) pr w'.
Proof.
  intros Hst Hs Ha Hne. pose proof built_cleaned as (_ & _ & Hout & _).
  pose proof (built_temp_nonempty _ _ _ _ _ _ _ _ _ _ _ B) as Hne'.
  unfold artifact_kept. rewrite Hst in Hout |- *.
  assert (¬ canon (w_cwd w) (path.join temp_dir sname)
            `suffix_of` canon (w_cwd w) (path.join temp_dir aname)) as Hnot.
  { rewrite !canon_join_plain by done. by intros ?%suffix_cons_same. }
  split; [done|]. by apply Hout.
Qed.

End Built.

(** ** The names of the artifacts *)

Lemma join_suffix a b :
  starts_with_slash b = false → ∃ pre, path.join a b = pre +:+ b.
Proof.
  intros Hb. unfold path.join. rewrite Hb.
  destruct (_ || _); [by exists a|].
  exists (a +:+ "/"). by rewrite string_app_assoc.
Qed.

Lemma string_app_length (a b : string) :
  String.length (a +:+ b) = (String.length a + String.length b)%nat.
Proof.
  induction a as [|c a IH]; [done|]. rewrite string_app_cons. simpl.
  by rewrite IH.
Qed.

Lemma tgz_names_differ version revision :
  tgz_dirname version revision ≠ tgz_name version revision.
Proof.
  unfold tgz_name. intros H. apply (f_equal String.length) in H.
  rewrite string_app_length in H. simpl in H. lia.
Qed.

Lemma no_slash_app a b :
  no_slash a = true → no_slash b = true → no_slash (a +:+ b) = true.
Proof.
  unfold no_slash. rewrite !Nat.eqb_eq, count_sep_app. lia.
Qed.

Lemma plain_named (head : ascii) (rest : string) :
  no_slash (String head rest) = true →
  head ≠ "."%char →
  plain (String head rest) = true.
Proof.
  intros Hs Hh. apply plain_intro; [by apply Nat.eqb_eq|done|..];
    intros [= -> _]; done.
Qed.

Lemma tgz_dirname_plain version revision :
  no_slash version = true → no_slash revision = true →
  plain (tgz_dirname version revision) = true.
Proof.
  intros Hv Hr. apply plain_named; [|done].
  change (no_slash (tgz_dirname version revision) = true).
  unfold tgz_dirname. repeat apply no_slash_app; done.
Qed.

Lemma tgz_name_plain version revision :
  no_slash version = true → no_slash revision = true →
  plain (tgz_name version revision) = true.
Proof.
  intros Hv Hr. apply plain_named; [|done].
  change (no_slash (tgz_name version revision) = true).
  unfold tgz_name, tgz_dirname. repeat apply no_slash_app; done.
Qed.

Lemma deb_name_plain version revision :
  no_slash version = true → no_slash revision = true →
  plain (deb_name version revision) = true.
Proof.
  intros Hv Hr. apply plain_named; [|done].
  change (no_slash (deb_name version revision) = true).
  unfold deb_name. repeat apply no_slash_app; done.
Qed.

Lemma rpm_name_plain version revision :
  no_slash version = true → no_slash revision = true →
  plain (rpm_name version revision) = true.
Proof.
  intros Hv Hr. apply plain_named; [|done].
  change (no_slash (rpm_name version revision) = true).
  unfold rpm_name. repeat apply no_slash_app; done.
Qed.

(** ** The staged layout, by location *)

Lemma staged_locations w input_dir root sub_lib sub_doc lib doc ws :
  good w → root ≠ EmptyString → w_cwd ws = w_cwd w →
  starts_with_slash sub_lib = false → components sub_lib = rev lib →
  Forall (λ c, plain c = true) lib →
  starts_with_slash sub_doc = false → components sub_doc = rev doc →
  Forall (λ c, plain c = true) doc →
  isdir ws root = true →
  staged w input_dir (path.join root sub_lib) (path.join root sub_doc) ws →
  staged_below w input_dir root lib doc ws.
Proof.
  intros Hgood Hroot Hcwd Hl1 Hl2 Hl3 Hd1 Hd2 Hd3 [_ Hdir]%isdir_lookup
    [Hfiles Hdocs].
  rewrite Hcwd in Hdir. split; [done|]. split.
  - intros names f i Hn Hf Hi.
    destruct (ino_at_lookup _ _ _ (Hfiles names f i Hn Hf Hi)) as [_ Hq].
    rewrite Hcwd, canon_join_plain in Hq
      by eauto using listed_plain, join_nonempty.
    by rewrite (canon_join_plains _ _ _ lib) in Hq.
  - intros d Hd. destruct (Hdocs d Hd) as (i & Hi & Hlink).
    exists i. split; [done|].
    destruct (ino_at_lookup _ _ _ Hlink) as [_ Hq].
    rewrite Hcwd, canon_join_plain in Hq
      by auto using docs_basename_plain, join_nonempty.
    by rewrite (canon_join_plains _ _ _ doc) in Hq.
Qed.

(** The documentation directory of the RPM layout, for a version
    without ['/']. *)
Lemma rpm_doc_components version :
  no_slash version = true →
  components ("usr/share/doc/" +:+ MECAB_IPADIC_NEOLOGD_NAME +:+ "-" +:+ version)
    = ["usr"; "share"; "doc"; MECAB_IPADIC_NEOLOGD_NAME +:+ "-" +:+ version].
Proof.
  intros Hv. unfold components.
  change ("usr/share/doc/" +:+ MECAB_IPADIC_NEOLOGD_NAME +:+ "-" +:+ version)
    with ("usr/share/doc" +:+
          String "/" (MECAB_IPADIC_NEOLOGD_NAME +:+ "-" +:+ version)).
  rewrite split_on_app_sep by done.
  rewrite (split_on_no_sep _ (MECAB_IPADIC_NEOLOGD_NAME +:+ "-" +:+ version));
    [done|].
  apply Nat.eqb_eq. change (no_slash (MECAB_IPADIC_NEOLOGD_NAME +:+ "-" +:+ version) = true).
  by repeat apply no_slash_app.
Qed.

Lemma rpm_doc_name_plain version :
  no_slash version = true →
  plain (MECAB_IPADIC_NEOLOGD_NAME +:+ "-" +:+ version) = true.
Proof.
  intros Hv. apply plain_named; [|done].
  change (no_slash (MECAB_IPADIC_NEOLOGD_NAME +:+ "-" +:+ version) = true).
  by repeat apply no_slash_app.
Qed.

(** ** Which directories [pathlib] makes *)




(** ** Builders, however they end *)











(** ** The tarball builder, however it ends *)


(** ** The RPM builder, however it ends *)


(** ** The Debian builder, however it ends *)


(** ** Messages name what they quote *)

Lemma prefix_app (x b : string) : String.prefix x (x +:+ b) = true.
Proof.
  induction x as [|c x IH]; [by destruct b|].
  rewrite string_app_cons. simpl.
  destruct (ascii_dec c c); [done|congruence].
Qed.

Lemma contains_here (x b : string) : contains x (x +:+ b) = true.
Proof.
  pose proof (prefix_app x b) as H.
  destruct (x +:+ b); cbn [contains]; by rewrite H.
Qed.

Lemma contains_app_r (x a b : string) :
  contains x b = true → contains x (a +:+ b) = true.
Proof.
  intros H. induction a as [|c a IH]; [done|].
  rewrite string_app_cons. cbn [contains]. rewrite IH. apply orb_true_r.
Qed.

Lemma no_dictionary_message_names input_dir :
  contains input_dir (no_dictionary_message input_dir) = true.
Proof.
  unfold no_dictionary_message.
  do 2 apply contains_app_r. apply contains_here.
Qed.

Lemma missing_doc_message_names d :
  contains d (missing_doc_message d) = true.
Proof.
  unfold missing_doc_message.
  do 2 apply contains_app_r. apply contains_here.
Qed.

(** ** C1, C9, C4: [create_package] *)

(** C1 (as amended). For every package type, version and revision: if
    [input_dir] has no file [sys.dic], or a path of the misc-docs list
    is not an existing file, [create_package] raises a
    [MeCabPackageException] and leaves the world as it found it: no
    temporary directory, no subprocess, no log record.  The message
    names [input_dir] when [sys.dic] is missing, and otherwise the
    first misc doc that is missing: the doc [d] of the list such that
    every doc before it is an existing file and [d] is not. *)
Theorem validation_fails_before_side_effects
    package_type input_dir version revision w :
  isfile w (path.join input_dir "sys.dic") = false ∨
  (∃ d, d ∈ MECAB_IPADIC_NEOLOGD_MISC_DOCS ∧ isfile w d = false) →
  ∃ msg,
    create_package package_type input_dir version revision w =
      (Err (MeCabPackageException msg), w) ∧
    ((isfile w (path.join input_dir "sys.dic") = false ∧
      msg = no_dictionary_message input_dir ∧
      contains input_dir msg = true) ∨
     (isfile w (path.join input_dir "sys.dic") = true ∧
      ∃ pre d post,
        MECAB_IPADIC_NEOLOGD_MISC_DOCS = pre ++ d :: post ∧
        forallb (isfile w) pre = true ∧ isfile w d = false ∧
        msg = missing_doc_message d ∧ contains d msg = true)).
Proof.
  intros H.
  destruct (isfile w (path.join input_dir "sys.dic")) eqn:Hsys.
  - destruct H as [?|(d & Hin & Hd)]; [discriminate|].
    assert (forallb (isfile w) MECAB_IPADIC_NEOLOGD_MISC_DOCS = false) as Hall.
    { apply not_true_is_false. intros Hall.
      rewrite forallb_forall in Hall.
      apply list_elem_of_In, Hall in Hin. congruence. }
    destruct (first_missing _ _ Hall) as (pre & d' & post & Hdocs & Hpre & Hd').
    exists (missing_doc_message d'). split.
    + by eapply create_package_missing_doc.
    + right. split; [done|]. exists pre, d', post.
      by rewrite missing_doc_message_names.
  - exists (no_dictionary_message input_dir). split.
    + by apply create_package_no_dictionary.
    + left. by rewrite no_dictionary_message_names.
Qed.

(** C9. [create_package] checks in a fixed order: the [sys.dic] marker
    first, then every misc doc in list order, then the package type.
    The error raised is the one of the first check that fails: with
    [sys.dic] missing it names [input_dir] whatever the docs and the
    type are; with [sys.dic] present it names the first missing doc
    whatever the type is; with all files present and a type other than
    [tgz], [deb], [rpm] it is the unknown-package-type error.  In all
    three cases the world is unchanged. *)
Theorem checks_in_order package_type input_dir version revision w :
  (isfile w (path.join input_dir "sys.dic") = false →
   create_package package_type input_dir version revision w =
     (Err (MeCabPackageException (no_dictionary_message input_dir)), w)) ∧
  (∀ pre d post,
     isfile w (path.join input_dir "sys.dic") = true →
     MECAB_IPADIC_NEOLOGD_MISC_DOCS = pre ++ d :: post →
     forallb (isfile w) pre = true →
     isfile w d = false →
     create_package package_type input_dir version revision w =
       (Err (MeCabPackageException (missing_doc_message d)), w)) ∧
  (validated w input_dir = true →
   package_type ≠ "tgz" → package_type ≠ "deb" → package_type ≠ "rpm" →
   create_package package_type input_dir version revision w =
     (Err (MeCabPackageException (unknown_type_message package_type)), w)).
Proof.
  split; [apply create_package_no_dictionary|].
  split; [intros; by eapply create_package_missing_doc|].
  intros Hv H1 H2 H3. rewrite create_package_validated by done.
  apply String.eqb_neq in H1, H2, H3. by rewrite H1, H2, H3.
Qed.

(** C4. For every package type in [tgz], [deb], [rpm]: when the checks
    have passed and the builder of that type returns a path, then
    [create_package] returns that same path normally, with the same
    world, also when no file exists at that path: the exception for the
    missing artifact is built and never raised. *)
Theorem missing_artifact_not_raised input_dir version revision w :
  validated w input_dir = true →
  (∀ p w', create_tgz_package input_dir version revision w = (Ok p, w') →
           isfile w' p = false →
           create_package "tgz" input_dir version revision w = (Ok p, w')) ∧
  (∀ p w', create_deb_package input_dir version revision w = (Ok p, w') →
           isfile w' p = false →
           create_package "deb" input_dir version revision w = (Ok p, w')) ∧
  (∀ p w', create_rpm_package input_dir version revision w = (Ok p, w') →
           isfile w' p = false →
           create_package "rpm" input_dir version revision w = (Ok p, w')).
Proof.
  intros Hv. repeat split; intros p w' H _;
    by rewrite create_package_validated.
Qed.

(** ** C5: the names of the artifacts *)

Lemma create_tgz_package_path input_dir version revision w p w' :
  create_tgz_package input_dir version revision w = (Ok p, w') →
  ∃ temp_dir, p = path.join temp_dir (tgz_name version revision).
Proof.
  intros H. unfold create_tgz_package in H. next_step H T w1 H1. exists T.
  cbv zeta in H. repeat (apply bind_Ok_inv in H as (? & ? & _ & H)).
  by injection H as <- _.
Qed.

Lemma create_deb_package_path input_dir version revision w p w' :
  create_deb_package input_dir version revision w = (Ok p, w') →
  ∃ temp_dir, p = path.join temp_dir (deb_name version revision).
Proof.
  intros H. unfold create_deb_package in H. next_step H T w1 H1. exists T.
  cbv zeta in H. repeat (apply bind_Ok_inv in H as (? & ? & _ & H)).
  by injection H as <- _.
Qed.

Lemma create_rpm_package_path input_dir version revision w p w' :
  create_rpm_package input_dir version revision w = (Ok p, w') →
  ∃ temp_dir, p = path.join temp_dir (rpm_name version revision).
Proof.
  intros H. unfold create_rpm_package in H. next_step H T w1 H1. exists T.
  cbv zeta in H. repeat (apply bind_Ok_inv in H as (? & ? & _ & H)).
  by injection H as <- _.
Qed.

(** C5. For every version and revision, the path returned by
    [create_tgz_package] ends in the file name
    [mecab-ipadic-neologd-<version>-<revision>.tgz], the path returned by
    [create_deb_package] in
    [mecab-ipadic-neologd_<version>-<revision>_all.deb] and the path
    returned by [create_rpm_package] in
    [mecab-ipadic-neologd_<version>-<revision>_all.rpm]: each is that
    name joined to the temporary directory. *)
Theorem artifact_names input_dir version revision w :
  (∀ p w', create_tgz_package input_dir version revision w = (Ok p, w') →
     ∃ temp_dir pre,
       p = path.join temp_dir (tgz_name version revision) ∧
       p = pre +:+ "mecab-ipadic-neologd-" +:+ version +:+ "-" +:+ revision
               +:+ ".tgz") ∧
  (∀ p w', create_deb_package input_dir version revision w = (Ok p, w') →
     ∃ temp_dir pre,
       p = path.join temp_dir (deb_name version revision) ∧
       p = pre +:+ "mecab-ipadic-neologd_" +:+ version +:+ "-" +:+ revision
               +:+ "_all.deb") ∧
  (∀ p w', create_rpm_package input_dir version revision w = (Ok p, w') →
     ∃ temp_dir pre,
       p = path.join temp_dir (rpm_name version revision) ∧
       p = pre +:+ "mecab-ipadic-neologd_" +:+ version +:+ "-" +:+ revision
               +:+ "_all.rpm").
Proof.
  split; [|split]; intros p w' H.
  - destruct (create_tgz_package_path _ _ _ _ _ _ H) as (T & ->).
    destruct (join_suffix T (tgz_name version revision) eq_refl) as (pre & Hp).
    exists T, pre. split; [done|]. rewrite Hp. unfold tgz_name, tgz_dirname.
    rewrite ?string_app_assoc. reflexivity.
  - destruct (create_deb_package_path _ _ _ _ _ _ H) as (T & ->).
    destruct (join_suffix T (deb_name version revision) eq_refl) as (pre & Hp).
    exists T, pre. split; [done|]. rewrite Hp. unfold deb_name.
    rewrite ?string_app_assoc. reflexivity.
  - destruct (create_rpm_package_path _ _ _ _ _ _ H) as (T & ->).
    destruct (join_suffix T (rpm_name version revision) eq_refl) as (pre & Hp).
    exists T, pre. split; [done|]. rewrite Hp. unfold rpm_name.
    rewrite ?string_app_assoc. reflexivity.
Qed.

(** ** C6, C7: what is staged *)

(** C6. In a world that is a tree, when [create_tgz_package] returns:
    it started [tar -czvf <returned path> <dirname>] in the temporary
    directory, with the one member [<dirname>] =
    [mecab-ipadic-neologd-<version>-<revision>]; in the file system [tar]
    saw, that member is a directory, every regular file of [input_dir]
    and every misc doc (by its base name) is a hard link in it, the same
    inode as the original, and nothing below it is a directory. *)
Theorem tarball_staging input_dir version revision w p w' :
  wf_world w = true →
  create_tgz_package input_dir version revision w = (Ok p, w') →
  ∃ temp_dir seen,
    let dirname := tgz_dirname version revision in
    let staging := path.join temp_dir dirname in
    let ws := seen_by (Invocation ["tar"; "-czvf"; p; dirname]
                         (Some temp_dir) seen) w in
    started w w' ["tar"; "-czvf"; p; dirname] (Some temp_dir) seen ∧
    isdir ws staging = true ∧
    staged w input_dir staging staging ws ∧
    (∀ q, canon (w_cwd w) staging `suffix_of` q →
          q ≠ canon (w_cwd w) staging →
          tree seen !! q ≠ Some Dir).
Proof.
  intros Hgood%wf_world_good H.
  destruct (create_tgz_package_built _ _ _ _ _ _ Hgood H)
    as (T & before & pr & -> & B & Hflat).
  exists T, (w_fs before). split; [exact (built_started B)|].
  split; [exact (built_staging_isdir B)|].
  split; [exact (built_staged B)|done].
Qed.

(** C7 (as amended). In a world that is a tree, when
    [create_deb_package] returns, [fpm] was started with
    [--chdir <temp>/deb] and in the file system it saw every regular
    file of [input_dir] is a hard link under
    [var/lib/mecab/dic/ipadic-neologd] of that staging root and every
    misc doc a hard link under [usr/share/doc/mecab-ipadic-neologd];
    when [create_rpm_package] returns, the staging root is [<temp>/rpm],
    the files are under [usr/lib64/mecab/dic/ipadic-neologd] and the
    docs under [usr/share/doc/mecab-ipadic-neologd-<version>].  The
    staging root is the entry [deb] (or [rpm]) of the temporary
    directory, and these directories lie within it: by location, for
    the Debian layout always, for the library directory of the RPM
    layout always, and for its documentation directory when the version
    has no ['/']. *)
Theorem package_staging input_dir version revision w :
  wf_world w = true →
  (∀ p w', create_deb_package input_dir version revision w = (Ok p, w') →
     ∃ temp_dir seen,
       let root := path.join temp_dir "deb" in
       let cmd := deb_fpm_command temp_dir version revision in
       let ws := seen_by (Invocation cmd None seen) w in
       started w w' cmd None seen ∧
       isdir ws root = true ∧
       staged w input_dir
         (path.join root "var/lib/mecab/dic/ipadic-neologd")
         (path.join root "usr/share/doc/mecab-ipadic-neologd") ws ∧
       canon (w_cwd w) root = "deb" :: canon (w_cwd w) temp_dir ∧
       staged_below w input_dir root
         ["ipadic-neologd"; "dic"; "mecab"; "lib"; "var"]
         ["mecab-ipadic-neologd"; "doc"; "share"; "usr"] ws) ∧
  (∀ p w', create_rpm_package input_dir version revision w = (Ok p, w') →
     ∃ temp_dir seen,
       let root := path.join temp_dir "rpm" in
       let cmd := rpm_fpm_command temp_dir version revision in
       let ws := seen_by (Invocation cmd None seen) w in
       started w w' cmd None seen ∧
       isdir ws root = true ∧
       staged w input_dir
         (path.join root "usr/lib64/mecab/dic/ipadic-neologd")
         (path.join root
            ("usr/share/doc/mecab-ipadic-neologd-" +:+ version)) ws ∧
       canon (w_cwd w) root = "rpm" :: canon (w_cwd w) temp_dir ∧
       (∀ names f i,
          os.listdir input_dir w = (Ok names, w) → f ∈ names →
          ino_at w (path.join input_dir f) = Some i →
          tree seen !! (f :: ["ipadic-neologd"; "dic"; "mecab"; "lib64"; "usr"]
                          ++ canon (w_cwd w) root) = Some (File i)) ∧
       (no_slash version = true →
        staged_below w input_dir root
          ["ipadic-neologd"; "dic"; "mecab"; "lib64"; "usr"]
          ["mecab-ipadic-neologd-" +:+ version; "doc"; "share"; "usr"] ws)).
Proof.
  intros Hgood%wf_world_good. split; intros p w' H.
  - destruct (create_deb_package_built _ _ _ _ _ _ Hgood H)
      as (T & before & pr & -> & B).
    pose proof (built_temp_nonempty _ _ _ _ _ _ _ _ _ _ _ B) as HT.
    exists T, (w_fs before). split; [exact (built_started B)|].
    split; [exact (built_staging_isdir B)|].
    split; [exact (built_staged B)|].
    split; [by apply canon_join_plain|].
    apply (staged_locations _ _ _ "var/lib/mecab/dic/ipadic-neologd"
             "usr/share/doc/mecab-ipadic-neologd");
      try done; try (by repeat constructor).
    + by apply join_nonempty.
    + exact (built_staging_isdir B).
    + exact (built_staged B).
  - destruct (create_rpm_package_built _ _ _ _ _ _ Hgood H)
      as (T & before & pr & -> & B).
    pose proof (built_temp_nonempty _ _ _ _ _ _ _ _ _ _ _ B) as HT.
    pose proof (built_staged B) as Hst.
    exists T, (w_fs before). split; [exact (built_started B)|].
    split; [exact (built_staging_isdir B)|].
    split; [exact Hst|].
    split; [by apply canon_join_plain|]. split.
    + intros names f i Hn Hf Hi. destruct Hst as [Hfiles _].
      destruct (ino_at_lookup _ _ _ (Hfiles names f i Hn Hf Hi)) as [_ Hq].
      cbn [seen_by set_fs w_cwd w_fs inv_fs] in Hq. unfold rpm_lib_dir in Hq.
      rewrite canon_join_plain in Hq
        by eauto using listed_plain, join_nonempty.
      by rewrite (canon_join_plains _ _ _
                    ["ipadic-neologd"; "dic"; "mecab"; "lib64"; "usr"]) in Hq
        by (done || by apply join_nonempty || by repeat constructor).
    + intros Hv.
      apply (staged_locations _ _ _ "usr/lib64/mecab/dic/ipadic-neologd"
               ("usr/share/doc/" +:+ MECAB_IPADIC_NEOLOGD_NAME +:+ "-" +:+ version));
        try done; try (by repeat constructor).
      * by apply join_nonempty.
      * by apply rpm_doc_components.
      * repeat constructor. by apply rpm_doc_name_plain.
      * exact (built_staging_isdir B).
Qed.

(** ** C8: the cleanup *)

(** C8 (as amended). In a world that is a tree, for every package
    format: when the builder returns, the packaging command had
    succeeded and the builder then removed exactly the staging subtree;
    every other entry, and the bytes of every inode, are as the command
    left them.  For a version and a revision without ['/'] the produced
    artifact is one of those other entries: the path that is returned
    names a location outside of the staging subtree, where the world at
    the return has what the command left. *)
Theorem cleanup_removes_staging_only input_dir version revision w :
  wf_world w = true →
  (∀ p w', create_tgz_package input_dir version revision w = (Ok p, w') →
     ∃ temp_dir seen pr,
       let staging := path.join temp_dir (tgz_dirname version revision) in
       let cmd := tar_command temp_dir version revision in
       started w w' cmd (Some temp_dir) seen ∧
       tool cmd (Some temp_dir) seen = Some pr ∧ (p_rc pr ≤ 0)%Z ∧
       cleaned w staging pr w' ∧
       (no_slash version = true → no_slash revision = true →
        artifact_kept w staging p pr w')) ∧
  (∀ p w', create_deb_package input_dir version revision w = (Ok p, w') →
     ∃ temp_dir seen pr,
       let staging := path.join temp_dir "deb" in
       let cmd := deb_fpm_command temp_dir version revision in
       started w w' cmd None seen ∧
       tool cmd None seen = Some pr ∧ (p_rc pr ≤ 0)%Z ∧
       cleaned w staging pr w' ∧
       (no_slash version = true → no_slash revision = true →
        artifact_kept w staging p pr w')) ∧
  (∀ p w', create_rpm_package input_dir version revision w = (Ok p, w') →
     ∃ temp_dir seen pr,
       let staging := path.join temp_dir "rpm" in
       let cmd := rpm_fpm_command temp_dir version revision in
       started w w' cmd None seen ∧
       tool cmd None seen = Some pr ∧ (p_rc pr ≤ 0)%Z ∧
       cleaned w staging pr w' ∧
       (no_slash version = true → no_slash revision = true →
        artifact_kept w staging p pr w')).
Proof.
  intros Hgood%wf_world_good. split; [|split]; intros p w' H.
  - destruct (create_tgz_package_built _ _ _ _ _ _ Hgood H)
      as (T & before & pr & -> & B & _).
    exists T, (w_fs before), pr. split; [exact (built_started B)|].
    split; [apply B|]. split; [apply B|]. split; [exact (built_cleaned B)|].
    intros Hv Hr.
    apply (built_artifact_kept B (tgz_dirname version revision));
      auto using tgz_dirname_plain, tgz_name_plain, tgz_names_differ.
  - destruct (create_deb_package_built _ _ _ _ _ _ Hgood H)
      as (T & before & pr & -> & B).
    exists T, (w_fs before), pr. split; [exact (built_started B)|].
    split; [apply B|]. split; [apply B|]. split; [exact (built_cleaned B)|].
    intros Hv Hr.
    apply (built_artifact_kept B "deb"); auto using deb_name_plain.
  - destruct (create_rpm_package_built _ _ _ _ _ _ Hgood H)
      as (T & before & pr & -> & B).
    exists T, (w_fs before), pr. split; [exact (built_started B)|].
    split; [apply B|]. split; [apply B|]. split; [exact (built_cleaned B)|].
    intros Hv Hr.
    apply (built_artifact_kept B "rpm"); auto using rpm_name_plain.
Qed.

(** ** C10: the input directory *)


End Script.

(** * Concrete runs *)

(** A run is its result and the world it leaves. *)
Lemma run_result {A} (run : result A * world) (r : result A) :
  run.1 = r → run = (r, run.2).
Proof. intros <-. apply surjective_pairing. Qed.

(** C2, on a tag without separator. *)
Lemma version_tag_parsing_witness :
  version_revision_from_version_tag "20170814" = Err ValueError.
Proof.
  apply (proj2 (proj2 (proj2 version_tag_parsing))). vm_compute. lia.
Defined.

(** C3. The process runner returns normally for a process that was
    killed by a signal: its return code is [-9], and the test of
    [__run_command] is [rc > 0].  So a non-zero code is not always
    raised. *)
Theorem run_command_returns_for_killed_process command cwd w :
  (__run_command killed command cwd w).1 = Ok tt.
Proof. by rewrite run_command_spec. Qed.

(** C1, as stated: the message for a missing [sys.dic] does not name
    the missing path. *)
Lemma validation_message_counterexample :
  ∃ msg,
    create_package packager sample_script_dir "tgz" "/out" "20170814" "1"
      sample_world = (Err (MeCabPackageException msg), sample_world) ∧
    isfile sample_world (path.join "/out" "sys.dic") = false ∧
    contains (path.join "/out" "sys.dic") msg = false ∧
    contains "sys.dic" msg = false.
Proof.
  exists (no_dictionary_message "/out"). by vm_compute.
Qed.

(** C1 (as amended): on the sample world without the input directory,
    and on the world where [README.ja.md] and [COPYING] are missing,
    where the message names [README.ja.md], the first of the two. *)
Lemma validation_fails_before_side_effects_witness :
  create_package packager sample_script_dir "tgz" "/out" "20170814" "1"
    sample_world =
    (Err (MeCabPackageException (no_dictionary_message "/out")), sample_world) ∧
  create_package packager sample_script_dir "deb" "/in" "20170814" "1"
    docless_world =
    (Err (MeCabPackageException
            (missing_doc_message "/repo/libexec/../README.ja.md")),
     docless_world).
Proof.
  split.
  - destruct (validation_fails_before_side_effects packager sample_script_dir
                "tgz" "/out" "20170814" "1" sample_world)
      as (msg & H & [(_ & -> & _)|(Hs & _)]).
    + left. vm_compute. reflexivity.
    + exact H.
    + vm_compute in Hs. discriminate Hs.
  - destruct (validation_fails_before_side_effects packager sample_script_dir
                "deb" "/in" "20170814" "1" docless_world)
      as (msg & H & [(Hs & _)|(_ & pre & d & post & Hdocs & Hpre & Hd & -> & _)]).
    + right. exists "/repo/libexec/../COPYING". split.
      * apply list_elem_of_In. vm_compute. tauto.
      * vm_compute. reflexivity.
    + vm_compute in Hs. discriminate Hs.
    + vm_compute in Hdocs.
      destruct pre as [|a [|b [|c [|x pre]]]]; simpl in Hdocs;
        injection Hdocs as; subst;
        try (vm_compute in Hd; discriminate Hd);
        try (vm_compute in Hpre; discriminate Hpre).
      exact H.
Defined.

(** C9, on the sample world: the three checks, each failing first. *)
Lemma checks_in_order_witness :
  create_package packager sample_script_dir "zip" "/out" "20170814" "1"
    sample_world =
    (Err (MeCabPackageException (no_dictionary_message "/out")), sample_world) ∧
  create_package packager "/repo" "zip" "/in" "20170814" "1" sample_world =
    (Err (MeCabPackageException (missing_doc_message "/repo/../README.md")),
     sample_world) ∧
  create_package packager sample_script_dir "zip" "/in" "20170814" "1"
    sample_world =
    (Err (MeCabPackageException (unknown_type_message "zip")), sample_world).
Proof.
  split; [|split].
  - apply (proj1 (checks_in_order packager sample_script_dir
                    "zip" "/out" "20170814" "1" sample_world)).
    vm_compute. reflexivity.
  - apply (proj1 (proj2 (checks_in_order packager "/repo"
                           "zip" "/in" "20170814" "1" sample_world))
             [] "/repo/../README.md"
             ["/repo/../README.ja.md"; "/repo/../ChangeLog"; "/repo/../COPYING"]);
      vm_compute; reflexivity.
  - apply (proj2 (proj2 (checks_in_order packager sample_script_dir
                           "zip" "/in" "20170814" "1" sample_world)));
      [vm_compute; reflexivity|discriminate..].
Defined.

(** C4, on the sample world with a packager that writes nothing, for
    each of the three package types. *)
Lemma missing_artifact_not_raised_witness :
  let run := create_tgz_package idle_packager sample_script_dir
               "/in" "20170814" "1" sample_world in
  let p := "/tmp/tmpabc/mecab-ipadic-neologd-20170814-1.tgz" in
  let deb := create_deb_package idle_packager sample_script_dir
               "/in" "20170814" "1" sample_world in
  let pdeb := "/tmp/tmpabc/mecab-ipadic-neologd_20170814-1_all.deb" in
  let rpm := create_rpm_package idle_packager sample_script_dir
               "/in" "20170814" "1" sample_world in
  let prpm := "/tmp/tmpabc/mecab-ipadic-neologd_20170814-1_all.rpm" in
  (isfile run.2 p = false ∧
   create_package idle_packager sample_script_dir "tgz" "/in" "20170814" "1"
     sample_world = (Ok p, run.2)) ∧
  (isfile deb.2 pdeb = false ∧
   create_package idle_packager sample_script_dir "deb" "/in" "20170814" "1"
     sample_world = (Ok pdeb, deb.2)) ∧
  (isfile rpm.2 prpm = false ∧
   create_package idle_packager sample_script_dir "rpm" "/in" "20170814" "1"
     sample_world = (Ok prpm, rpm.2)).
Proof.
  intros run p deb pdeb rpm prpm.
  pose proof (missing_artifact_not_raised idle_packager sample_script_dir
                "/in" "20170814" "1" sample_world
                ltac:(vm_compute; reflexivity)) as (Ht & Hd & Hr).
  split; [|split]; (split; [vm_compute; reflexivity|]).
  - apply Ht.
    + apply run_result. vm_compute. reflexivity.
    + vm_compute. reflexivity.
  - apply Hd.
    + apply run_result. vm_compute. reflexivity.
    + vm_compute. reflexivity.
  - apply Hr.
    + apply run_result. vm_compute. reflexivity.
    + vm_compute. reflexivity.
Defined.

(** The sample world is a tree. *)
Lemma sample_world_wf : wf_world sample_world = true.
Proof. vm_compute. reflexivity. Qed.

(** C5, on the sample world: each of the three builders returns, and
    the path it returns ends in its file name. *)
Lemma artifact_names_witness :
  (create_tgz_package packager sample_script_dir
     "/in" "20170814" "1" sample_world).1 =
    Ok "/tmp/tmpabc/mecab-ipadic-neologd-20170814-1.tgz" ∧
  (create_deb_package packager sample_script_dir
     "/in" "20170814" "1" sample_world).1 =
    Ok "/tmp/tmpabc/mecab-ipadic-neologd_20170814-1_all.deb" ∧
  (create_rpm_package packager sample_script_dir
     "/in" "20170814" "1" sample_world).1 =
    Ok "/tmp/tmpabc/mecab-ipadic-neologd_20170814-1_all.rpm" ∧
  (∃ temp_dir pre,
     "/tmp/tmpabc/mecab-ipadic-neologd-20170814-1.tgz" =
       path.join temp_dir (tgz_name "20170814" "1") ∧
     "/tmp/tmpabc/mecab-ipadic-neologd-20170814-1.tgz" =
       pre +:+ "mecab-ipadic-neologd-" +:+ "20170814" +:+ "-" +:+ "1" +:+ ".tgz") ∧
  (∃ temp_dir pre,
     "/tmp/tmpabc/mecab-ipadic-neologd_20170814-1_all.deb" =
       path.join temp_dir (deb_name "20170814" "1") ∧
     "/tmp/tmpabc/mecab-ipadic-neologd_20170814-1_all.deb" =
       pre +:+ "mecab-ipadic-neologd_" +:+ "20170814" +:+ "-" +:+ "1"
           +:+ "_all.deb") ∧
  (∃ temp_dir pre,
     "/tmp/tmpabc/mecab-ipadic-neologd_20170814-1_all.rpm" =
       path.join temp_dir (rpm_name "20170814" "1") ∧
     "/tmp/tmpabc/mecab-ipadic-neologd_20170814-1_all.rpm" =
       pre +:+ "mecab-ipadic-neologd_" +:+ "20170814" +:+ "-" +:+ "1"
           +:+ "_all.rpm").
Proof.
  assert ((create_tgz_package packager sample_script_dir
             "/in" "20170814" "1" sample_world).1 =
            Ok "/tmp/tmpabc/mecab-ipadic-neologd-20170814-1.tgz") as Htgz
    by (vm_compute; reflexivity).
  assert ((create_deb_package packager sample_script_dir
             "/in" "20170814" "1" sample_world).1 =
            Ok "/tmp/tmpabc/mecab-ipadic-neologd_20170814-1_all.deb") as Hdeb
    by (vm_compute; reflexivity).
  assert ((create_rpm_package packager sample_script_dir
             "/in" "20170814" "1" sample_world).1 =
            Ok "/tmp/tmpabc/mecab-ipadic-neologd_20170814-1_all.rpm") as Hrpm
    by (vm_compute; reflexivity).
  split; [exact Htgz|]. split; [exact Hdeb|]. split; [exact Hrpm|].
  split; [|split].
  - exact (proj1 (artifact_names packager sample_script_dir
                    "/in" "20170814" "1" sample_world)
             _ _ (run_result _ _ Htgz)).
  - exact (proj1 (proj2 (artifact_names packager sample_script_dir
                           "/in" "20170814" "1" sample_world))
             _ _ (run_result _ _ Hdeb)).
  - exact (proj2 (proj2 (artifact_names packager sample_script_dir
                           "/in" "20170814" "1" sample_world))
             _ _ (run_result _ _ Hrpm)).
Defined.

(** C6, on the sample world: [tar] is started on the staged directory. *)
Lemma tarball_staging_witness :
  let run := create_tgz_package packager sample_script_dir
               "/in" "20170814" "1" sample_world in
  ∃ temp_dir seen,
    started sample_world run.2
      ["tar"; "-czvf"; "/tmp/tmpabc/mecab-ipadic-neologd-20170814-1.tgz";
       "mecab-ipadic-neologd-20170814-1"] (Some temp_dir) seen ∧
    ino_at (set_fs seen sample_world)
      (path.join (path.join temp_dir "mecab-ipadic-neologd-20170814-1") "sys.dic")
      = Some 5%nat.
Proof.
  intros run.
  destruct (tarball_staging packager sample_script_dir "/in" "20170814" "1"
              sample_world "/tmp/tmpabc/mecab-ipadic-neologd-20170814-1.tgz"
              run.2)
    as (temp_dir & seen & Hstarted & _ & [Hfiles _] & _).
  - vm_compute. reflexivity.
  - apply run_result. vm_compute. reflexivity.
  - exists temp_dir, seen. split; [exact Hstarted|].
    apply (Hfiles ["matrix.bin"; "sys.dic"; "sub"] "sys.dic" 5%nat).
    + vm_compute. reflexivity.
    + apply list_elem_of_further, list_elem_of_here.
    + vm_compute. reflexivity.
Defined.

(** C7, as stated: with the version ["a/../../../../../x"] the
    documentation directory of the RPM layout is not within the staging
    root.  The builder returns; [fpm] was started on the staging root
    [<temp>/rpm], and saw the misc docs in [<temp>/x], where they stay
    after the cleanup. *)
Lemma package_staging_counterexample :
  let version := "a/../../../../../x" in
  let run := create_rpm_package packager sample_script_dir
               "/in" version "1" sample_world in
  let inv := hd (Invocation [] None sample_fs) (w_procs run.2) in
  let root := path.join "/tmp/tmpabc" "rpm" in
  let doc_dir :=
    path.join root ("usr/share/doc/mecab-ipadic-neologd-" +:+ version) in
  run.1 = Ok (path.join "/tmp/tmpabc" (rpm_name version "1")) ∧
  inv_cmd inv = rpm_fpm_command "/tmp/tmpabc" version "1" ∧
  isdir (seen_by inv sample_world) root = true ∧
  ino_at (seen_by inv sample_world) (path.join doc_dir "README.md")
    = Some 1%nat ∧
  canon [] root = ["rpm"; "tmpabc"; "tmp"] ∧
  canon [] (path.join doc_dir "README.md") = ["README.md"; "x"; "tmpabc"; "tmp"] ∧
  bool_decide (canon [] root `suffix_of`
                 canon [] (path.join doc_dir "README.md")) = false ∧
  ino_at run.2 "/tmp/tmpabc/x/README.md" = Some 1%nat.
Proof. vm_compute. repeat split. Qed.

(** C7 (as amended), on the sample world, for both layouts: [sys.dic]
    and [README.md] where [fpm] saw them, within the staging root. *)
Lemma package_staging_witness :
  let deb := create_deb_package packager sample_script_dir
               "/in" "20170814" "1" sample_world in
  let rpm := create_rpm_package packager sample_script_dir
               "/in" "20170814" "1" sample_world in
  (∃ temp_dir seen,
     started sample_world deb.2 (deb_fpm_command temp_dir "20170814" "1")
       None seen ∧
     tree seen !! (["sys.dic"; "ipadic-neologd"; "dic"; "mecab"; "lib"; "var";
                    "deb"] ++ canon [] temp_dir) = Some (File 5) ∧
     ∃ i, tree seen !! (["README.md"; "mecab-ipadic-neologd"; "doc"; "share";
                         "usr"; "deb"] ++ canon [] temp_dir) = Some (File i)) ∧
  (∃ temp_dir seen,
     started sample_world rpm.2 (rpm_fpm_command temp_dir "20170814" "1")
       None seen ∧
     tree seen !! (["sys.dic"; "ipadic-neologd"; "dic"; "mecab"; "lib64"; "usr";
                    "rpm"] ++ canon [] temp_dir) = Some (File 5) ∧
     ∃ i, tree seen !! (["README.md"; "mecab-ipadic-neologd-20170814"; "doc";
                         "share"; "usr"; "rpm"] ++ canon [] temp_dir)
            = Some (File i)).
Proof.
  intros deb rpm.
  assert (os.listdir "/in" sample_world =
            (Ok ["matrix.bin"; "sys.dic"; "sub"], sample_world)) as Hlist.
  { apply (run_result (os.listdir "/in" sample_world)). vm_compute. reflexivity. }
  assert ("sys.dic" ∈ ["matrix.bin"; "sys.dic"; "sub"]) as Hin
    by apply list_elem_of_further, list_elem_of_here.
  assert (ino_at sample_world (path.join "/in" "sys.dic") = Some 5%nat) as Hino
    by (vm_compute; reflexivity).
  split.
  - destruct (proj1 (package_staging packager sample_script_dir
                       "/in" "20170814" "1" sample_world sample_world_wf)
                "/tmp/tmpabc/mecab-ipadic-neologd_20170814-1_all.deb" deb.2)
      as (temp_dir & seen & Hstarted & _ & _ & Hroot & _ & Hfiles & Hdocs).
    + apply run_result. vm_compute. reflexivity.
    + exists temp_dir, seen. split; [exact Hstarted|].
      specialize (Hfiles _ _ _ Hlist Hin Hino).
      destruct (Hdocs (path.join (PATH_TO_ROOT sample_script_dir) "README.md")
                  (list_elem_of_here _ _)) as (i & _ & Hdoc).
      rewrite Hroot in Hfiles, Hdoc. split; [exact Hfiles|].
      exists i. exact Hdoc.
  - destruct (proj2 (package_staging packager sample_script_dir
                       "/in" "20170814" "1" sample_world sample_world_wf)
                "/tmp/tmpabc/mecab-ipadic-neologd_20170814-1_all.rpm" rpm.2)
      as (temp_dir & seen & Hstarted & _ & _ & Hroot & _ & Hbelow).
    + apply run_result. vm_compute. reflexivity.
    + destruct (Hbelow eq_refl) as (_ & Hfiles & Hdocs).
      exists temp_dir, seen. split; [exact Hstarted|].
      specialize (Hfiles _ _ _ Hlist Hin Hino).
      destruct (Hdocs (path.join (PATH_TO_ROOT sample_script_dir) "README.md")
                  (list_elem_of_here _ _)) as (i & _ & Hdoc).
      rewrite Hroot in Hfiles, Hdoc. split; [exact Hfiles|].
      exists i. exact Hdoc.
Defined.

(** C8, as stated: with the revision ["1/"] the tarball is written
    into the staging directory.  The packaging command succeeds and
    leaves the artifact at the path that is returned; the cleanup removes
    it with the staging directory. *)
Lemma cleanup_counterexample :
  let p := "/tmp/tmpabc/mecab-ipadic-neologd-20170814-1/.tgz" in
  let run := create_tgz_package packager sample_script_dir
               "/in" "20170814" "1/" sample_world in
  let inv := hd (Invocation [] None sample_fs) (w_procs run.2) in
  let pr := packager (inv_cmd inv) (inv_cwd inv) (inv_fs inv) in
  run.1 = Ok p ∧
  inv_cmd inv = tar_command "/tmp/tmpabc" "20170814" "1/" ∧
  p_rc <$> pr = Some 0%Z ∧
  (λ pr, isfile (set_fs (p_fs pr) sample_world) p) <$> pr = Some true ∧
  isfile run.2 p = false.
Proof. vm_compute. repeat split. Qed.

(** C8 (as amended), on the sample world: the staging directory is
    removed and the artifact is kept, for each of the three builders. *)
Lemma cleanup_removes_staging_only_witness :
  let p := "/tmp/tmpabc/mecab-ipadic-neologd-20170814-1.tgz" in
  let run := create_tgz_package packager sample_script_dir
               "/in" "20170814" "1" sample_world in
  let pdeb := "/tmp/tmpabc/mecab-ipadic-neologd_20170814-1_all.deb" in
  let deb := create_deb_package packager sample_script_dir
               "/in" "20170814" "1" sample_world in
  let prpm := "/tmp/tmpabc/mecab-ipadic-neologd_20170814-1_all.rpm" in
  let rpm := create_rpm_package packager sample_script_dir
               "/in" "20170814" "1" sample_world in
  (∃ temp_dir pr,
     cleaned sample_world
       (path.join temp_dir (tgz_dirname "20170814" "1")) pr run.2 ∧
     artifact_kept sample_world
       (path.join temp_dir (tgz_dirname "20170814" "1")) p pr run.2) ∧
  (∃ temp_dir pr,
     cleaned sample_world (path.join temp_dir "deb") pr deb.2 ∧
     artifact_kept sample_world (path.join temp_dir "deb") pdeb pr deb.2) ∧
  (∃ temp_dir pr,
     cleaned sample_world (path.join temp_dir "rpm") pr rpm.2 ∧
     artifact_kept sample_world (path.join temp_dir "rpm") prpm pr rpm.2).
Proof.
  intros p run pdeb deb prpm rpm.
  pose proof (cleanup_removes_staging_only packager sample_script_dir
                "/in" "20170814" "1" sample_world sample_world_wf)
    as (Ht & Hd & Hr).
  split; [|split].
  - destruct (Ht p run.2) as (temp_dir & seen & pr & _ & _ & _ & Hclean & Hkept).
    + apply run_result. vm_compute. reflexivity.
    + exists temp_dir, pr. split; [exact Hclean|].
      apply Hkept; vm_compute; reflexivity.
  - destruct (Hd pdeb deb.2)
      as (temp_dir & seen & pr & _ & _ & _ & Hclean & Hkept).
    + apply run_result. vm_compute. reflexivity.
    + exists temp_dir, pr. split; [exact Hclean|].
      apply Hkept; vm_compute; reflexivity.
  - destruct (Hr prpm rpm.2)
      as (temp_dir & seen & pr & _ & _ & _ & Hclean & Hkept).
    + apply run_result. vm_compute. reflexivity.
    + exists temp_dir, pr. split; [exact Hclean|].
      apply Hkept; vm_compute; reflexivity.
Defined.


